(** * BatchInserter (models.py): buffered, normalizing bulk insertion

    A shallow embedding of the class [BatchInserter] of [models.py]:
    its constructor, [insert], [flush] and [_pad_data], over an explicit
    Python object store (row dictionaries are heap objects that the buffer
    references) and a model of the transactional store behind [db_proxy]. *)

From Stdlib Require Import ZArith.
From stdpp Require Import gmap strings list fin_maps.

Local Open Scope Z_scope.

(** ** Python values and objects *)

(** The scalars a row can hold.  [VNone] is Python's [None]. *)
Inductive value : Type :=
  | VNone
  | VInt (z : Z)
  | VStr (s : string)
  | VBool (b : bool).

(** A row is a [dict] from field names to values. *)
Abbreviation row := (gmap string value).

(** Dictionaries are objects: a variable or a list slot holds a reference.
    The object store is a table of dictionaries, references are indexes in it
    and nothing is ever freed. *)
Abbreviation loc := nat.
Abbreviation heap := (list row).

(** Reading the dictionary behind a reference.  A Python reference is never
    dangling; the default is only there to make the function total. *)
Definition deref (h : heap) (l : loc) : row := default ∅ (h !! l).

(** Creating a new dictionary object with contents [d]. *)
Definition alloc (h : heap) (d : row) : heap * loc := (h ++ [d], length h).

(** All references of [ls] point to objects of [h]. *)
Definition valid (h : heap) (ls : list loc) : Prop :=
  Forall (λ l, (l < length h)%nat) ls.

(** ** The store behind [db_proxy] *)

(** Exceptions the database layer raises. *)
Inductive exn : Type :=
  | IntegrityError (msg : string)
  | OperationalError (msg : string).

(** What the store is asked to do, in order. *)
Inductive event : Type :=
  | Begin
  | InsertMany (model : string) (batch : list row)
  | Commit
  | Rollback.

(** How the store answers one bulk insert: it takes all rows, or it raises
    after having written the first [written] rows. *)
Inductive reply : Type :=
  | Accept
  | Reject (written : nat) (e : exn).

(** The world outside the inserter: the object store, the rows of the
    database (tagged with their model), the trace of store operations, and
    the answers the store will give to the coming bulk inserts (when the list
    is exhausted the store accepts). *)
Record world : Type := World {
  objs : heap;
  db : list (string * row);
  log : list event;
  faults : list reply
}.

Definition with_objs (h : heap) (w : world) : world :=
  World h (db w) (log w) (faults w).

Definition with_db (d : list (string * row)) (w : world) : world :=
  World (objs w) d (log w) (faults w).

Definition emit (e : event) (w : world) : world :=
  World (objs w) (db w) (log w ++ [e]) (faults w).

(** A statement either returns or raises. *)
Abbreviation outcome := (option exn).

(** Modelled from the spec: the store handle ([db_proxy], a peewee database)
    is outside this repository.  The answer the store gives to the next bulk
    insert. *)
Definition next_reply (w : world) : reply :=
  match faults w with
  | [] => Accept
  | a :: _ => a
  end.

(** Modelled from the spec: peewee's [ModelType.insert_many(batch).execute()],
    the store's "bulk insert N rows into target entity type T".  The rows are
    written in the order of the batch, all of them, or the first ones before
    the store raises. *)
Definition insert_many_execute (model : string) (batch : list row)
    (w : world) : world * outcome :=
  let w1 := World (objs w) (db w) (log w ++ [InsertMany model batch])
                  (tail (faults w)) in
  match next_reply w with
  | Accept =>
      (with_db (db w1 ++ (pair model <$> batch)) w1, None)
  | Reject written e =>
      (with_db (db w1 ++ (pair model <$> take written batch)) w1, Some e)
  end.

(** Modelled from the spec: peewee's [with db_proxy.atomic(): body], the
    store's "begin atomic scope / commit / rollback on exception".  The block
    commits when the body returns; when the body raises, the database goes
    back to what it was on entry and the exception is raised again. *)
Definition atomic (body : world → world * outcome) (w : world)
    : world * outcome :=
  let snapshot := db w in
  match body (emit Begin w) with
  | (w', None) => (emit Commit w', None)
  | (w', Some e) => (emit Rollback (with_db snapshot w'), Some e)
  end.

(** ** The class *)

Record BatchInserter : Type := Inserter {
  rows : list loc;
  ModelType : string;
  batch_size : Z;
  pad_data : bool
}.

Definition with_rows (rs : list loc) (self : BatchInserter) : BatchInserter :=
  Inserter rs (ModelType self) (batch_size self) (pad_data self).

(** [__init__]: it stores its arguments and cannot raise. *)
Definition __init__ (ModelType : string) (batch_size : Z)
    (fill_missing_fields : bool) : BatchInserter * outcome :=
  (Inserter [] ModelType batch_size fill_missing_fields, None).

(** First loop of [_pad_data]: the union of the keys of all rows. *)
Definition field_names_of (h : heap) (rs : list loc) : gset string :=
  foldl (λ field_names r, field_names ∪ dom (deref h r)) ∅ rs.

(** Body of the second loop of [_pad_data], at index [i]:
    [updated_data = copy.copy(default_data)] makes a new dictionary,
    [updated_data.update(rows[i])] writes into that new dictionary (the
    entries of [rows[i]] win), [rows[i] = updated_data] replaces the slot. *)
Definition pad_step (default_data : loc) (st : heap * list loc) (i : nat)
    : heap * list loc :=
  let '(h, rs) := st in
  match rs !! i with
  | None => st (* not reached: [enumerate(rows)] gives indexes of [rows] *)
  | Some r =>
      let '(h1, updated_data) := alloc h (deref h default_data) in
      let h2 := <[updated_data := deref h1 r ∪ deref h1 updated_data]> h1 in
      (h2, <[i := updated_data]> rs)
  end.

(** [_pad_data(rows)]: the list [rows] is mutated in place, so the new
    contents of the list are returned with the new object store. *)
Definition _pad_data (h : heap) (rs : list loc) : heap * list loc :=
  let field_names := field_names_of h rs in
  let '(h0, default_data) := alloc h (gset_to_gmap VNone field_names) in
  foldl (pad_step default_data) (h0, rs) (seq 0 (length rs)).

(** [flush].  [self.rows = []] is reached only when the block returned. *)
Definition flush (self : BatchInserter) (w : world)
    : BatchInserter * world * outcome :=
  let '(h, rs) :=
    if pad_data self then _pad_data (objs w) (rows self)
    else (objs w, rows self) in
  let self1 := with_rows rs self in
  match atomic (insert_many_execute (ModelType self1) (deref h <$> rs))
               (with_objs h w) with
  | (w', Some e) => (self1, w', Some e)
  | (w', None) => (with_rows [] self1, w', None)
  end.

(** [insert(row)]. *)
Definition insert (r : loc) (self : BatchInserter) (w : world)
    : BatchInserter * world * outcome :=
  let self1 := with_rows (rows self ++ [r]) self in
  if Z.of_nat (length (rows self1)) >=? batch_size self1
  then flush self1 w
  else (self1, w, None).

(** ** Sessions: what a caller does with an inserter *)

Inductive call : Type :=
  | DoInsert (r : loc)
  | DoFlush.

Definition do_call (c : call) (self : BatchInserter) (w : world)
    : BatchInserter * world * outcome :=
  match c with
  | DoInsert r => insert r self w
  | DoFlush => flush self w
  end.

(** The caller goes on after an exception (it caught it); the outcomes of
    all calls are collected. *)
Fixpoint session (cs : list call) (self : BatchInserter) (w : world)
    : BatchInserter * world * list outcome :=
  match cs with
  | [] => (self, w, [])
  | c :: cs' =>
      let '(self1, w1, o) := do_call c self w in
      let '(self2, w2, os) := session cs' self1 w1 in
      (self2, w2, o :: os)
  end.

(** Store operations seen in a trace. *)
Definition is_insert_many (e : event) : bool :=
  match e with InsertMany _ _ => true | _ => false end.

Definition is_begin (e : event) : bool :=
  match e with Begin => true | _ => false end.

(** The number of bulk inserts (one per flush) in a trace. *)
Definition flushes (tr : list event) : nat :=
  length (filter (λ e, is_insert_many e = true) tr).

(** The number of transactions opened in a trace. *)
Definition transactions (tr : list event) : nat :=
  length (filter (λ e, is_begin e = true) tr).

(** The batches handed to the store, in order. *)
Fixpoint batches (tr : list event) : list (list row) :=
  match tr with
  | [] => []
  | InsertMany _ b :: tr' => b :: batches tr'
  | _ :: tr' => batches tr'
  end.

(** The contents of the buffered rows, in buffer order. *)
Definition contents (h : heap) (rs : list loc) : list row := deref h <$> rs.

(** A world with the given objects, an empty database and a store that
    follows [fs]. *)
Definition start (h : heap) (fs : list reply) : world := World h [] [] fs.

(** ** What normalization computes, on contents *)

(** The field names that occur in a batch. *)
Definition keys_of (b : list row) : gset string := ⋃ (dom <$> b).

(** A row completed with [None] for the fields of [U] it lacks. *)
Definition padded (U : gset string) (d : row) : row := d ∪ gset_to_gmap VNone U.

(** A batch in which every row is completed to the fields of the batch. *)
Definition normalized (b : list row) : list row := padded (keys_of b) <$> b.

(** The batch a flush hands to the store. *)
Definition batch_of (self : BatchInserter) (h : heap) : list row :=
  if pad_data self then normalized (contents h (rows self))
  else contents h (rows self).

(** What the object store and the buffer are when the bulk insert of a flush
    starts: [_pad_data] has run if the inserter was asked to fill fields. *)
Definition prepared (self : BatchInserter) (w : world) : heap * list loc :=
  if pad_data self then _pad_data (objs w) (rows self)
  else (objs w, rows self).

(** How a submitted row [d] is handed over as [c]: with the missing fields
    added when the inserter fills fields, and as it is otherwise. *)
Definition delivered_as (pad : bool) (d c : row) : Prop :=
  if pad then d ⊆ c else c = d.

(** The rows a session submits, in order. *)
Fixpoint inserted (cs : list call) : list loc :=
  match cs with
  | [] => []
  | DoInsert r :: cs' => r :: inserted cs'
  | DoFlush :: cs' => inserted cs'
  end.

(** ** The scenarios of the specification, run on the model *)

Definition row_a1 : row := {[ "a"%string := VInt 1 ]}.
Definition row_a2b5 : row := <[ "b"%string := VInt 5 ]> {[ "a"%string := VInt 2 ]}.
Definition row_a3 : row := {[ "a"%string := VInt 3 ]}.

Definition three_rows : heap := [row_a1; row_a2b5; row_a3].

Definition post3 : BatchInserter := (__init__ "Post" 3 true).1.
Definition post10 : BatchInserter := (__init__ "Post" 10 false).1.
Definition post0 : BatchInserter := (__init__ "Post" 0 false).1.

Definition connection_lost : exn := OperationalError "connection lost".

(** Batch size 0, and a store that is down for the first bulk insert: the
    first [insert] raises, the caller goes on with a second [insert]. *)
Definition first_insert : BatchInserter * world * outcome :=
  insert 0%nat post0 (start [row_a1; row_a3] [Reject 0 connection_lost]).

Definition second_insert : BatchInserter * world * outcome :=
  insert 1%nat first_insert.1.1 first_insert.1.2.

(** ** More of the module: traces, batches and aliasing *)

Definition is_commit (e : event) : bool :=
  match e with Commit => true | _ => false end.

Definition is_rollback (e : event) : bool :=
  match e with Rollback => true | _ => false end.

(** The number of transactions a trace commits, and rolls back. *)
Definition commits (tr : list event) : nat :=
  length (filter (λ e, is_commit e = true) tr).

Definition rollbacks (tr : list event) : nat :=
  length (filter (λ e, is_rollback e = true) tr).

(** The number of calls of a session that raised. *)
Definition raised (os : list outcome) : nat :=
  length (filter (λ o : outcome, is_Some o) os).

(** All rows of a batch have the same field names. *)
Definition uniform (b : list row) : Prop :=
  ∀ d1 d2, d1 ∈ b → d2 ∈ b → dom d1 = dom d2.


(** ** [init_database] *)

(** What [json.load] returns: scalars, lists and dictionaries. *)
#[warnings="-register-all"]
Inductive json : Type :=
  | JScalar (v : value)
  | JArray (items : list json)
  | JObject (members : gmap string json).

(** What a file looks like to [open] and [json.load]: a file that exists
    holds a JSON document or not; a file that is not in the map does not
    exist. *)
Inductive file : Type :=
  | NotJson
  | Json (document : json).

(** The database objects of peewee that the module constructs: the database
    name, and for Postgres the keyword arguments. *)
Inductive database : Type :=
  | PostgresqlDatabase (name : string) (config : gmap string json)
  | SqliteDatabase (name : string).

(** The exceptions of Python that the module's functions run into. *)
Inductive error : Type :=
  | IOError (filename : string)
  | ValueError
  | TypeError
  | KeyError (key : string)
  | UnboundLocalError (name : string)
  | IndexError.

Definition POSTGRES_CONFIG_NAME : string := "postgres-credentials.json".
Definition DATABASE_NAME : string := "fetcher".

(** Python's truth value of an object ([if x], [not x]). *)
Definition truthy (v : value) : bool :=
  match v with
  | VNone => false
  | VInt z => negb (z =? 0)
  | VStr s => negb (String.eqb s "")
  | VBool b => b
  end.

(** [x == 'literal'] for a string literal. *)
Definition eq_str (v : value) (s : string) : bool :=
  match v with
  | VStr s' => String.eqb s' s
  | _ => false
  end.

(** [init_database(db_type, config_filename)].  [db_proxy] is the object the
    module's proxy is bound to ([None] before [db_proxy.initialize]);
    constructing a peewee database object connects to nothing.  The local [db]
    is bound in the first two branches only. *)
Definition init_database (fs : gmap string file) (db_proxy : option database)
    (db_type : value) (config_filename : option string)
    : option database * option error :=
  if eq_str db_type "postgres" then
    let config_filename :=
      match config_filename with
      | Some name => if String.eqb name "" then POSTGRES_CONFIG_NAME else name
      | None => POSTGRES_CONFIG_NAME
      end in
    match fs !! config_filename with
    | None => (db_proxy, Some (IOError config_filename))
    | Some NotJson => (db_proxy, Some ValueError)
    | Some (Json (JObject pg_config)) =>
        match pg_config !! "dbusername" with
        | None => (db_proxy, Some (KeyError "dbusername"))
        | Some dbusername =>
            let config : gmap string json := {[ "user" := dbusername ]} in
            let config :=
              match pg_config !! "dbpassword" with
              | Some dbpassword => <[ "password" := dbpassword ]> config
              | None => config
              end in
            let config :=
              match pg_config !! "host" with
              | Some host => <[ "host" := host ]> config
              | None => config
              end in
            (Some (PostgresqlDatabase DATABASE_NAME config), None)
        end
    | Some (Json _) => (db_proxy, Some TypeError)
    end
  else if eq_str db_type "sqlite" || negb (truthy db_type) then
    (Some (SqliteDatabase (DATABASE_NAME +:+ ".db")), None)
  else
    (db_proxy, Some (UnboundLocalError "db")).

(** ** The schema and [create_tables] *)

(** The field classes of peewee the models use; a foreign key names the
    model it refers to (['self'] for the model itself). *)
Inductive field_type : Type :=
  | IntegerField
  | TextField
  | DateTimeField
  | BooleanField
  | CharField
  | ForeignKeyField (rel_model : string).

(** The keyword arguments of the field declarations. *)
Inductive keyword : Type :=
  | KwIndex (b : bool)
  | KwNull (b : bool)
  | KwDefaultNow
  | KwDefaultNone
  | KwMaxLength (n : Z)
  | KwRelatedName (s : string).

Record field : Type := Field {
  field_name : string;
  type_of : field_type;
  keywords : list keyword
}.

Record model_class : Type := ModelClass {
  model_name : string;
  fields : list field
}.

(** The subclasses of [ProxyModel], in the order of the module. *)
Definition declared_models : list model_class := [
  ModelClass "Seed" [
    Field "fetch_index" IntegerField [KwIndex true];
    Field "date" DateTimeField [KwIndex true; KwDefaultNow];
    Field "parent" (ForeignKeyField "self") [KwNull true; KwRelatedName "children"];
    Field "seed" CharField [];
    Field "depth" IntegerField []
  ];
  ModelClass "Query" [
    Field "fetch_index" IntegerField [KwIndex true];
    Field "date" DateTimeField [KwIndex true; KwDefaultNow];
    Field "seed" (ForeignKeyField "Seed") [];
    Field "query" CharField [];
    Field "depth" IntegerField [];
    Field "rank" IntegerField []
  ];
  ModelClass "Search" [
    Field "fetch_index" IntegerField [KwIndex true];
    Field "date" DateTimeField [KwIndex true; KwDefaultNow];
    Field "query" CharField [];
    Field "page_index" IntegerField [];
    Field "requested_count" IntegerField [];
    Field "result_count_on_page" IntegerField [];
    Field "estimated_results_count" IntegerField [];
    Field "package" TextField [KwIndex true; KwNull true]
  ];
  ModelClass "SearchResult" [
    Field "search" (ForeignKeyField "Search") [KwRelatedName "results"];
    Field "title" TextField [];
    Field "snippet" TextField [KwNull true];
    Field "link" CharField [];
    Field "url" CharField [KwIndex true];
    Field "updated_date" DateTimeField [];
    Field "rank" IntegerField []
  ];
  ModelClass "WebPageContent" [
    Field "date" DateTimeField [KwIndex true; KwDefaultNow];
    Field "url" TextField [KwIndex true];
    Field "content" TextField []
  ];
  ModelClass "SearchResultContent" [
    Field "search_result" (ForeignKeyField "SearchResult") [];
    Field "content" (ForeignKeyField "WebPageContent") []
  ];
  ModelClass "Code" [
    Field "date" DateTimeField [KwIndex true; KwDefaultNow];
    Field "compute_index" IntegerField [KwIndex true];
    Field "web_page" (ForeignKeyField "WebPageContent") [];
    Field "code" TextField []
  ];
  ModelClass "WebPageVersion" [
    Field "fetch_index" IntegerField [KwIndex true];
    Field "date" DateTimeField [KwIndex true; KwDefaultNow];
    Field "url" TextField [KwIndex true];
    Field "url_key" TextField [];
    Field "timestamp" DateTimeField [KwIndex true];
    Field "original" TextField [];
    Field "mime_type" TextField [];
    Field "status_code" TextField [KwIndex true];
    Field "digest" TextField [KwIndex true];
    Field "length" IntegerField [KwNull true]
  ];
  ModelClass "QuestionSnapshot" [
    Field "fetch_index" IntegerField [KwIndex true];
    Field "date" DateTimeField [KwIndex true; KwDefaultNow];
    Field "question_id" IntegerField [KwIndex true];
    Field "owner_id" IntegerField [KwNull true];
    Field "comment_count" IntegerField [];
    Field "delete_vote_count" IntegerField [];
    Field "reopen_vote_count" IntegerField [];
    Field "close_vote_count" IntegerField [];
    Field "is_answered" BooleanField [];
    Field "view_count" IntegerField [];
    Field "favorite_count" IntegerField [];
    Field "down_vote_count" IntegerField [];
    Field "up_vote_count" IntegerField [];
    Field "answer_count" IntegerField [];
    Field "score" IntegerField [];
    Field "last_activity_date" DateTimeField [];
    Field "creation_date" DateTimeField [];
    Field "title" TextField [];
    Field "body" TextField []
  ];
  ModelClass "QuestionSnapshotTag" [
    Field "question_snapshot_id" IntegerField [KwIndex true];
    Field "tag_id" IntegerField [KwIndex true]
  ];
  ModelClass "Post" [
    Field "post_type_id" IntegerField [];
    Field "accepted_answer_id" IntegerField [KwNull true];
    Field "parent_id" IntegerField [KwNull true];
    Field "creation_date" DateTimeField [];
    Field "deletion_date" DateTimeField [KwNull true];
    Field "score" IntegerField [];
    Field "view_count" IntegerField [KwNull true];
    Field "body" TextField [];
    Field "owner_user_id" IntegerField [KwNull true];
    Field "owner_display_name" CharField [KwMaxLength 80; KwNull true];
    Field "last_editor_user_id" IntegerField [KwNull true];
    Field "last_editor_display_name" CharField [KwMaxLength 80; KwNull true];
    Field "last_edit_date" DateTimeField [KwNull true];
    Field "last_activity_date" DateTimeField [];
    Field "title" TextField [KwNull true];
    Field "tags" TextField [KwNull true];
    Field "answer_count" IntegerField [KwNull true];
    Field "comment_count" IntegerField [];
    Field "favorite_count" IntegerField [KwNull true];
    Field "closed_date" DateTimeField [KwNull true];
    Field "community_owned_date" DateTimeField [KwNull true]
  ];
  ModelClass "Tag" [
    Field "tag_name" CharField [KwIndex true; KwMaxLength 70];
    Field "count" IntegerField [];
    Field "excerpt_post_id" IntegerField [KwIndex true; KwNull true];
    Field "wiki_post_id" IntegerField [KwNull true]
  ];
  ModelClass "PostHistory" [
    Field "post_history_type_id" IntegerField [];
    Field "post_id" IntegerField [];
    Field "revision_guid" CharField [KwMaxLength 16];
    Field "creation_date" DateTimeField [];
    Field "user_id" IntegerField [KwNull true];
    Field "user_display_name" CharField [KwMaxLength 80; KwNull true];
    Field "comment" TextField [KwNull true];
    Field "text" TextField []
  ];
  ModelClass "PostLink" [
    Field "creation_date" DateTimeField [];
    Field "post_id" IntegerField [];
    Field "related_post_id" IntegerField [];
    Field "link_type_id" IntegerField []
  ];
  ModelClass "Vote" [
    Field "post_id" IntegerField [];
    Field "vote_type_id" IntegerField [];
    Field "user_id" IntegerField [KwNull true];
    Field "creation_date" DateTimeField [];
    Field "bounty_amount" IntegerField [KwNull true]
  ];
  ModelClass "Comment" [
    Field "post_id" IntegerField [];
    Field "score" IntegerField [];
    Field "text" TextField [];
    Field "creation_date" DateTimeField [];
    Field "user_display_name" CharField [KwMaxLength 60; KwNull true];
    Field "user_id" IntegerField [KwNull true]
  ];
  ModelClass "Badge" [
    Field "user_id" IntegerField [];
    Field "name" CharField [KwMaxLength 100];
    Field "date" DateTimeField [];
    Field "class_" IntegerField [];
    Field "tag_based" BooleanField []
  ];
  ModelClass "User" [
    Field "reputation" IntegerField [];
    Field "creation_date" DateTimeField [];
    Field "display_name" CharField [KwMaxLength 80];
    Field "last_access_date" DateTimeField [];
    Field "website_url" TextField [KwNull true];
    Field "location" CharField [KwMaxLength 200; KwNull true];
    Field "about_me" TextField [KwNull true];
    Field "views" IntegerField [];
    Field "up_votes" IntegerField [];
    Field "down_votes" IntegerField [];
    Field "profile_image_url" TextField [KwNull true];
    Field "email_hash" CharField [KwMaxLength 32; KwNull true];
    Field "age" IntegerField [KwNull true];
    Field "account_id" IntegerField []
  ];
  ModelClass "PostTag" [
    Field "post_id" IntegerField [KwIndex true];
    Field "tag_id" IntegerField [KwIndex true]
  ];
  ModelClass "SnippetPattern" [
    Field "pattern" TextField [KwIndex true]
  ];
  ModelClass "PostSnippet" [
    Field "compute_index" IntegerField [KwIndex true];
    Field "date" DateTimeField [KwIndex true; KwDefaultNow];
    Field "post" (ForeignKeyField "Post") [];
    Field "pattern" (ForeignKeyField "SnippetPattern") [];
    Field "snippet" TextField []
  ];
  ModelClass "PostNpmInstallPackage" [
    Field "compute_index" IntegerField [KwIndex true];
    Field "date" DateTimeField [KwIndex true; KwDefaultNow];
    Field "post" (ForeignKeyField "Post") [];
    Field "package" TextField []
  ];
  ModelClass "Task" [
    Field "compute_index" IntegerField [KwIndex true];
    Field "date" DateTimeField [KwIndex true; KwDefaultNow];
    Field "task" TextField [KwIndex true];
    Field "mode" TextField [KwIndex true];
    Field "search_result_content" (ForeignKeyField "SearchResultContent") [KwIndex true]
  ];
  ModelClass "Verb" [
    Field "verb" TextField [KwIndex true]
  ];
  ModelClass "Noun" [
    Field "noun" TextField [KwIndex true]
  ];
  ModelClass "TaskVerb" [
    Field "task" (ForeignKeyField "Task") [KwIndex true];
    Field "verb" (ForeignKeyField "Verb") [KwIndex true]
  ];
  ModelClass "TaskNoun" [
    Field "task" (ForeignKeyField "Task") [KwIndex true];
    Field "noun" (ForeignKeyField "Noun") [KwIndex true]
  ];
  ModelClass "GitHubProject" [
    Field "fetch_index" IntegerField [KwIndex true];
    Field "date" DateTimeField [KwIndex true; KwDefaultNow];
    Field "name" TextField [KwIndex true];
    Field "owner" TextField [];
    Field "repo" TextField []
  ];
  ModelClass "Issue" [
    Field "fetch_index" IntegerField [KwIndex true];
    Field "date" DateTimeField [KwIndex true; KwDefaultNow];
    Field "github_id" IntegerField [];
    Field "project" (ForeignKeyField "GitHubProject") [];
    Field "number" IntegerField [];
    Field "created_at" DateTimeField [KwIndex true];
    Field "updated_at" DateTimeField [KwIndex true];
    Field "closed_at" DateTimeField [KwIndex true; KwNull true];
    Field "state" TextField [];
    Field "body" TextField [KwNull true];
    Field "comments" IntegerField [];
    Field "user_id" IntegerField [KwIndex true; KwNull true; KwDefaultNone]
  ];
  ModelClass "IssueEvent" [
    Field "fetch_index" IntegerField [KwIndex true];
    Field "date" DateTimeField [KwIndex true; KwDefaultNow];
    Field "github_id" IntegerField [];
    Field "issue" (ForeignKeyField "Issue") [];
    Field "created_at" DateTimeField [KwIndex true];
    Field "event" TextField []
  ];
  ModelClass "IssueComment" [
    Field "fetch_index" IntegerField [KwIndex true];
    Field "date" DateTimeField [KwIndex true; KwDefaultNow];
    Field "github_id" IntegerField [];
    Field "issue" (ForeignKeyField "Issue") [];
    Field "created_at" DateTimeField [KwIndex true];
    Field "updated_at" DateTimeField [KwIndex true];
    Field "body" TextField [];
    Field "user_id" IntegerField [KwIndex true; KwNull true; KwDefaultNone]
  ];
  ModelClass "SlantTopic" [
    Field "fetch_index" IntegerField [KwIndex true];
    Field "date" DateTimeField [KwIndex true; KwDefaultNow];
    Field "topic_id" IntegerField [KwIndex true];
    Field "title" TextField [];
    Field "url_path" TextField [];
    Field "owner_username" TextField []
  ];
  ModelClass "Viewpoint" [
    Field "fetch_index" IntegerField [KwIndex true];
    Field "date" DateTimeField [KwIndex true; KwDefaultNow];
    Field "topic" (ForeignKeyField "SlantTopic") [];
    Field "viewpoint_index" IntegerField [];
    Field "title" TextField [];
    Field "url_path" TextField []
  ];
  ModelClass "ViewpointSection" [
    Field "fetch_index" IntegerField [KwIndex true];
    Field "date" DateTimeField [KwIndex true; KwDefaultNow];
    Field "viewpoint" (ForeignKeyField "Viewpoint") [];
    Field "section_index" IntegerField [];
    Field "title" TextField [];
    Field "text" TextField [];
    Field "is_con" BooleanField [];
    Field "upvotes" IntegerField [];
    Field "downvotes" IntegerField []
  ]
].

Definition create_tables_models : list string := [
  "Query"; "Seed"; "Search"; "SearchResult"; "WebPageContent"; "Code";
  "SearchResultContent"; "WebPageVersion"; "QuestionSnapshot";
  "QuestionSnapshotTag"; "Post"; "Tag"; "PostHistory"; "PostLink"; "Vote";
  "Comment"; "Badge"; "User"; "PostTag"; "SnippetPattern"; "PostSnippet";
  "PostNpmInstallPackage"; "Task"; "TaskNoun"; "TaskVerb"; "Noun"; "Verb";
  "GitHubProject"; "Issue"; "IssueComment"; "IssueEvent"; "SlantTopic";
  "Viewpoint"; "ViewpointSection"
].

(** The models a field list refers to by foreign key. *)
Fixpoint rel_models (fs : list field) : list string :=
  match fs with
  | [] => []
  | Field _ (ForeignKeyField m) _ :: fs' => m :: rel_models fs'
  | _ :: fs' => rel_models fs'
  end.

(** A class body can name the classes bound before it, and ['self']: every
    foreign key of every model refers to the model itself or to a model
    declared earlier. *)
Fixpoint declared_in_order (earlier : list string) (ms : list model_class)
    : bool :=
  match ms with
  | [] => true
  | m :: ms' =>
      forallb (λ t, bool_decide (t = "self" ∨ t ∈ earlier)) (rel_models (fields m))
      && declared_in_order (earlier ++ [model_name m]) ms'
  end.

(** ** The page of [hello.py] *)

(** What [render_template] is given. *)
Inductive response : Type :=
  | Rendered (template : string) (results : list row).

(** The title of a [Post] row; the column is nullable. *)
Definition title_of (p : row) : option string :=
  match p !! "title" with
  | Some (VStr s) => Some s
  | _ => None
  end.

(** The query [Post.select().where(Post.title.contains(...)).limit(10)] as
    peewee (a library, not part of this module) runs it: of the rows of the
    table, in the order the store yields them, those whose title is not null
    and passes the store's substring test [contains], the first [n] of
    them. *)
Definition select_where_title_limit (contains : string → bool) (n : nat)
    (posts : list row) : list row :=
  take n (filter (λ p, from_option contains false (title_of p) = true) posts).

(** [hello_world()]: what is printed, and the response or the exception. *)
Definition hello_world (contains : string → bool) (posts : list row)
    : list (option string) * (response + error) :=
  let ten := select_where_title_limit contains 10 posts in
  match ten !! 0%nat with
  | None => ([], inr IndexError)
  | Some first => ([title_of first], inl (Rendered "index.html" ten))
  end.

(** The substring test used in the examples. *)
Definition contains_django (s : string) : bool :=
  bool_decide (is_Some (String.index 0 "Django" s)).

(** ** The object store *)

Section Heap.
Implicit Types (h : heap) (l : loc) (d : row) (rs : list loc).

Lemma deref_app_l h ext l : (l < length h)%nat → deref (h ++ ext) l = deref h l.
Proof. intros Hl. unfold deref. by rewrite lookup_app_l. Qed.

Lemma deref_app_new h d ext : deref (h ++ d :: ext) (length h) = d.
Proof. unfold deref. by rewrite list_lookup_middle. Qed.

Lemma contents_app_l h ext rs : valid h rs → contents (h ++ ext) rs = contents h rs.
Proof.
  unfold valid, contents. induction 1 as [|l rs Hl _ IH]; [done|].
  cbn. by rewrite IH, deref_app_l.
Qed.

Lemma valid_app h ext rs : valid h rs → valid (h ++ ext) rs.
Proof.
  unfold valid. intros Hv. eapply Forall_impl; [exact Hv|].
  intros l Hl. cbn in *. rewrite length_app. lia.
Qed.

Lemma valid_snoc h rs l : valid h rs → (l < length h)%nat → valid h (rs ++ [l]).
Proof. intros Hrs Hl. apply Forall_app. split; [done|]. by constructor. Qed.

Lemma valid_lookup h rs i l : valid h rs → rs !! i = Some l → (l < length h)%nat.
Proof. intros Hv Hi. exact (proj1 (Forall_lookup _ _) Hv i l Hi). Qed.

Lemma valid_seq h n k : (n + k ≤ length h)%nat → valid h (seq n k).
Proof.
  intros Hle. apply Forall_forall. intros l Hl.
  apply elem_of_seq in Hl. lia.
Qed.

(** The objects allocated in a row, read back through their references. *)
Lemma contents_seq h b ext :
  contents (h ++ b ++ ext) (seq (length h) (length b)) = b.
Proof.
  unfold contents. apply list_eq. intros i.
  rewrite list_lookup_fmap.
  destruct (decide (i < length b)%nat) as [Hi|Hi].
  - rewrite lookup_seq_lt by done. cbn. unfold deref.
    rewrite lookup_app_r by lia.
    replace (length h + i - length h)%nat with i by lia.
    rewrite lookup_app_l by done.
    destruct (lookup_lt_is_Some_2 b i Hi) as [d Hd]. by rewrite Hd.
  - rewrite lookup_seq_ge by lia. cbn. symmetry. apply lookup_ge_None. lia.
Qed.
End Heap.

(** ** Normalization *)

Section Normalize.
Implicit Types (h : heap) (l : loc) (d : row) (rs : list loc)
  (U : gset string) (f : string).

Lemma elem_of_keys_of (b : list row) f :
  f ∈ keys_of b ↔ ∃ d, d ∈ b ∧ f ∈ dom d.
Proof.
  unfold keys_of. rewrite elem_of_union_list. split.
  - intros (X & HX & Hf). apply list_elem_of_fmap in HX as (d & -> & Hd). eauto.
  - intros (d & Hd & Hf). exists (dom d). split; [|done].
    apply list_elem_of_fmap. eauto.
Qed.

Lemma field_names_acc h rs U :
  foldl (λ field_names r, field_names ∪ dom (deref h r)) U rs
  = U ∪ keys_of (contents h rs).
Proof.
  revert U. induction rs as [|r rs IH]; intros U; cbn.
  - unfold keys_of. cbn. by rewrite (right_id_L ∅ (∪)).
  - rewrite IH. unfold keys_of. cbn. by rewrite (assoc_L (∪)).
Qed.

Lemma field_names_of_keys h rs : field_names_of h rs = keys_of (contents h rs).
Proof. unfold field_names_of. by rewrite field_names_acc, (left_id_L ∅ (∪)). Qed.

Lemma padded_lookup_present U d f v : d !! f = Some v → padded U d !! f = Some v.
Proof. intros Hf. unfold padded. by apply lookup_union_Some_l. Qed.

Lemma padded_lookup_absent U d f :
  d !! f = None → f ∈ U → padded U d !! f = Some VNone.
Proof.
  intros Hf HU. unfold padded. rewrite lookup_union_r by done.
  by apply lookup_gset_to_gmap_Some.
Qed.

Lemma dom_padded U d : dom d ⊆ U → dom (padded U d) = U.
Proof.
  intros Hsub. unfold padded. rewrite dom_union_L, dom_gset_to_gmap.
  by apply subseteq_union_1_L.
Qed.

Lemma padded_subseteq U d : d ⊆ padded U d.
Proof. apply map_union_subseteq_l. Qed.

(** A row that has all the fields already is left as it is. *)
Lemma padded_id U d : dom d = U → padded U d = d.
Proof.
  intros Hdom. apply map_eq. intros f. unfold padded.
  destruct (d !! f) as [v|] eqn:Hf.
  - by apply lookup_union_Some_l.
  - rewrite lookup_union_r by done. apply lookup_gset_to_gmap_None.
    rewrite <- Hdom. by apply not_elem_of_dom.
Qed.

(** The loop of [_pad_data] after [k] rounds: the first [k] slots hold new
    dictionaries, allocated in order after [default_data]; the other slots
    and all earlier objects are as they were. *)
Lemma pad_loop h D rs k :
  valid h rs → (k ≤ length rs)%nat →
  foldl (pad_step (length h)) (h ++ [D], rs) (seq 0 k)
  = (h ++ [D] ++ ((λ r, deref h r ∪ D) <$> take k rs),
     seq (S (length h)) k ++ drop k rs).
Proof.
  intros Hv. induction k as [|k IH]; intros Hk.
  - cbn. by rewrite take_0, drop_0.
  - rewrite seq_S, foldl_app, IH by lia.
    change (0 + k)%nat with k. cbn [foldl]. unfold pad_step.
    destruct (lookup_lt_is_Some_2 rs k) as [r Hr]; [lia|].
    assert (Hslot : (seq (S (length h)) k ++ drop k rs) !! k = Some r).
    { rewrite lookup_app_r by (rewrite length_seq; lia).
      rewrite length_seq, Nat.sub_diag, lookup_drop, Nat.add_0_r. done. }
    rewrite Hslot. unfold alloc.
    set (h' := h ++ [D] ++ ((λ r0, deref h r0 ∪ D) <$> take k rs)).
    assert (Hlen : length h' = (S (length h) + k)%nat).
    { unfold h'. rewrite !length_app, length_fmap, length_take. cbn. lia. }
    assert (HD : deref h' (length h) = D).
    { unfold h'. apply deref_app_new. }
    assert (Hr' : deref (h' ++ [D]) r = deref h r).
    { unfold h'. rewrite <- !app_assoc.
      apply deref_app_l. by eapply valid_lookup. }
    assert (Hnew : deref (h' ++ [D]) (length h') = D).
    { apply deref_app_new. }
    rewrite HD, Hr', Hnew. f_equal.
    + replace (length h') with (length h' + 0)%nat at 1 by lia.
      rewrite insert_app_r. cbn. unfold h'.
      rewrite (take_S_r _ _ _ Hr), fmap_app. cbn.
      by rewrite <- !app_assoc.
    + replace k with (length (seq (S (length h)) k) + 0)%nat at 1
        by (rewrite length_seq; lia).
      rewrite insert_app_r, (drop_S _ _ _ Hr), seq_S, <- app_assoc, Hlen.
      done.
Qed.

(** [_pad_data] in closed form. *)
Lemma pad_data_eq h rs :
  valid h rs →
  _pad_data h rs
  = (h ++ [gset_to_gmap VNone (keys_of (contents h rs))]
       ++ normalized (contents h rs),
     seq (S (length h)) (length rs)).
Proof.
  intros Hv. unfold _pad_data, alloc.
  rewrite pad_loop by done.
  rewrite firstn_all, drop_all, app_nil_r, field_names_of_keys.
  unfold normalized, contents, padded. by rewrite <- list_fmap_compose.
Qed.
End Normalize.

Section NormalizeResults.
Implicit Types (h : heap) (l : loc) (d : row) (rs : list loc)
  (U : gset string) (f : string).

Lemma pad_data_length h rs h' rs' :
  valid h rs → _pad_data h rs = (h', rs') → length rs' = length rs.
Proof.
  intros Hv. rewrite pad_data_eq by done. intros [= <- <-].
  apply length_seq.
Qed.

(** After [_pad_data] the buffer reads as the normalized batch. *)
Lemma pad_data_contents h rs h' rs' :
  valid h rs → _pad_data h rs = (h', rs') →
  contents h' rs' = normalized (contents h rs).
Proof.
  intros Hv. rewrite pad_data_eq by done. intros [= <- <-].
  set (D := gset_to_gmap VNone (keys_of (contents h rs))).
  set (b := normalized (contents h rs)).
  replace (length rs) with (length b)
    by (unfold b, normalized, contents; by rewrite !length_fmap).
  replace (S (length h)) with (length (h ++ [D]))
    by (rewrite length_app; cbn; lia).
  transitivity (contents ((h ++ [D]) ++ b ++ [])
                         (seq (length (h ++ [D])) (length b)));
    [|apply contents_seq].
  f_equal. by rewrite app_nil_r, <- app_assoc.
Qed.

(** The new references point to objects of the new store. *)
Lemma pad_data_valid h rs h' rs' :
  valid h rs → _pad_data h rs = (h', rs') → valid h' rs'.
Proof.
  intros Hv. rewrite pad_data_eq by done. intros [= <- <-].
  apply valid_seq. rewrite length_app. cbn [length].
  unfold normalized, contents. rewrite !length_fmap. lia.
Qed.

(** Slot [i] after [_pad_data] holds row [i] completed with [None]. *)
Lemma pad_data_lookup h rs h' rs' i r :
  valid h rs → _pad_data h rs = (h', rs') → rs !! i = Some r →
  ∃ r', rs' !! i = Some r'
        ∧ deref h' r' = padded (keys_of (contents h rs)) (deref h r).
Proof.
  intros Hv Hpad Hi.
  pose proof (pad_data_length _ _ _ _ Hv Hpad) as Hlen.
  pose proof (pad_data_contents _ _ _ _ Hv Hpad) as Hc.
  destruct (lookup_lt_is_Some_2 rs' i) as [r' Hr'].
  { rewrite Hlen. by eapply lookup_lt_Some. }
  exists r'. split; [done|].
  assert (Hi' : contents h' rs' !! i = Some (deref h' r')).
  { unfold contents. by rewrite list_lookup_fmap, Hr'. }
  rewrite Hc in Hi'. unfold normalized, contents in Hi'.
  rewrite !list_lookup_fmap, Hi in Hi'. cbn in Hi'.
  by injection Hi' as <-.
Qed.

Lemma keys_of_contents h rs f :
  f ∈ keys_of (contents h rs) ↔ ∃ j q, rs !! j = Some q ∧ f ∈ dom (deref h q).
Proof.
  rewrite elem_of_keys_of. split.
  - intros (d & Hd & Hf). unfold contents in Hd.
    apply list_elem_of_fmap in Hd as (q & -> & Hq).
    apply list_elem_of_lookup in Hq as [j Hj]. eauto.
  - intros (j & q & Hj & Hf). exists (deref h q). split; [|done].
    unfold contents. apply list_elem_of_fmap. exists q. split; [done|].
    apply list_elem_of_lookup. eauto.
Qed.

(** Normalizing a uniform batch changes nothing. *)
Lemma normalized_uniform (b : list row) :
  (∀ d1 d2, d1 ∈ b → d2 ∈ b → dom d1 = dom d2) → normalized b = b.
Proof.
  intros Hu. unfold normalized.
  transitivity (id <$> b); [|apply list_fmap_id]. apply list_fmap_ext.
  intros i d Hd. cbn. apply padded_id.
  assert (Hin : d ∈ b) by (apply list_elem_of_lookup; eauto).
  apply set_eq. intros f. rewrite elem_of_keys_of. split.
  - intros Hf. eauto.
  - intros (d' & Hd' & Hf). by rewrite (Hu d d').
Qed.

(** All rows of a normalized batch have the fields of the batch. *)
Lemma dom_normalized (b : list row) d :
  d ∈ normalized b → dom d = keys_of b.
Proof.
  unfold normalized. intros Hd.
  apply list_elem_of_fmap in Hd as (d0 & -> & Hd0).
  apply dom_padded. intros f Hf. apply elem_of_keys_of. eauto.
Qed.

Lemma normalized_idemp (b : list row) : normalized (normalized b) = normalized b.
Proof.
  apply normalized_uniform. intros d1 d2 H1 H2.
  by rewrite (dom_normalized _ _ H1), (dom_normalized _ _ H2).
Qed.

Lemma normalized_singleton d : normalized [d] = [d].
Proof.
  apply normalized_uniform. intros d1 d2 H1 H2.
  apply list_elem_of_singleton in H1, H2. by subst.
Qed.
End NormalizeResults.

(** ** One flush *)

Section Flush.
Implicit Types (self : BatchInserter) (w : world) (r : loc) (o : outcome).

(** The transaction around one bulk insert, when the store accepts. *)
Lemma atomic_accept model b w :
  next_reply w = Accept →
  atomic (insert_many_execute model b) w
  = (World (objs w) (db w ++ (pair model <$> b))
           (log w ++ [Begin; InsertMany model b; Commit])
           (tail (faults w)), None).
Proof.
  intros Hr. unfold atomic, insert_many_execute.
  replace (next_reply (emit Begin w)) with Accept by done.
  unfold emit, with_db. cbn. by rewrite <- !app_assoc.
Qed.

(** The same when the store raises: nothing stays in the database. *)
Lemma atomic_reject model b w k e :
  next_reply w = Reject k e →
  atomic (insert_many_execute model b) w
  = (World (objs w) (db w)
           (log w ++ [Begin; InsertMany model b; Rollback])
           (tail (faults w)), Some e).
Proof.
  intros Hr. unfold atomic, insert_many_execute.
  replace (next_reply (emit Begin w)) with (Reject k e) by done.
  unfold emit, with_db. cbn. by rewrite <- !app_assoc.
Qed.

(** The loop of [_pad_data] only adds objects to the store. *)
Lemma pad_loop_extends dd (ixs : list nat) (st : heap * list loc) :
  ∃ ext, (foldl (pad_step dd) st ixs).1 = st.1 ++ ext.
Proof.
  revert st. induction ixs as [|i ixs IH]; intros [h rs]; cbn [foldl].
  - exists []. cbn. by rewrite app_nil_r.
  - destruct (IH (pad_step dd (h, rs) i)) as [ext Hext].
    rewrite Hext. unfold pad_step.
    destruct (rs !! i) as [r|]; [|by eauto].
    unfold alloc. cbn [fst].
    rewrite insert_app_r_alt, Nat.sub_diag by done. cbn [insert list_insert].
    exists ([deref (h ++ [deref h dd]) r
             ∪ deref (h ++ [deref h dd]) (length h)] ++ ext).
    by rewrite app_assoc.
Qed.

Lemma pad_data_frame (h : heap) (rs : list loc) :
  ∃ ext, (_pad_data h rs).1 = h ++ ext.
Proof.
  unfold _pad_data, alloc.
  destruct (pad_loop_extends (length h)
              (seq 0 (length rs))
              (h ++ [gset_to_gmap VNone (field_names_of h rs)], rs))
    as [ext Hext].
  rewrite Hext. cbn [fst]. rewrite <- app_assoc. eauto.
Qed.

Lemma flush_unfold self w :
  flush self w
  = match atomic (insert_many_execute (ModelType self)
                    (deref (prepared self w).1 <$> (prepared self w).2))
                 (with_objs (prepared self w).1 w) with
    | (w', Some e) => (with_rows (prepared self w).2 self, w', Some e)
    | (w', None) => (with_rows [] self, w', None)
    end.
Proof.
  unfold flush, prepared.
  destruct (if pad_data self then _ else _) as [h rs]. done.
Qed.

Lemma prepared_frame self w : ∃ ext, (prepared self w).1 = objs w ++ ext.
Proof.
  unfold prepared. destruct (pad_data self).
  - apply pad_data_frame.
  - exists []. cbn. by rewrite app_nil_r.
Qed.

(** With valid references the prepared buffer reads as [batch_of]. *)
Lemma prepared_contents self w :
  valid (objs w) (rows self) →
  contents (prepared self w).1 (prepared self w).2 = batch_of self (objs w)
  ∧ valid (prepared self w).1 (prepared self w).2
  ∧ length (prepared self w).2 = length (rows self).
Proof.
  intros Hv. unfold prepared, batch_of. destruct (pad_data self); [|done].
  destruct (_pad_data (objs w) (rows self)) as [h rs] eqn:Hpad. cbn.
  split; [by eapply pad_data_contents|].
  split; [by eapply pad_data_valid|by eapply pad_data_length].
Qed.

(** A flush that the store accepts. *)
Lemma flush_accept self w :
  next_reply w = Accept →
  flush self w
  = (with_rows [] self,
     World (prepared self w).1
           (db w ++ (pair (ModelType self)
                       <$> contents (prepared self w).1 (prepared self w).2))
           (log w ++ [Begin;
                      InsertMany (ModelType self)
                        (contents (prepared self w).1 (prepared self w).2);
                      Commit])
           (tail (faults w)),
     None).
Proof.
  intros Hr. rewrite flush_unfold, atomic_accept by done. done.
Qed.

(** A flush in which the store raises [e]. *)
Lemma flush_reject self w k e :
  next_reply w = Reject k e →
  flush self w
  = (with_rows (prepared self w).2 self,
     World (prepared self w).1 (db w)
           (log w ++ [Begin;
                      InsertMany (ModelType self)
                        (contents (prepared self w).1 (prepared self w).2);
                      Rollback])
           (tail (faults w)),
     Some e).
Proof.
  intros Hr. rewrite flush_unfold. erewrite atomic_reject by done. done.
Qed.
End Flush.

(** ** Properties of [_pad_data] *)

Ltac solve_valid :=
  unfold valid; repeat (constructor; [cbn; lia|]); constructor.

(** C1. After [_pad_data] the list has the same number of rows, and for the
    row at every position: its field names are exactly the field names that
    occur in some row of the batch; a field of the batch that the original
    row lacked is [None]; a field the original row had keeps its value. *)
Theorem pad_data_union (h : heap) (rs : list loc) (h' : heap) (rs' : list loc) :
  valid h rs →
  _pad_data h rs = (h', rs') →
  length rs' = length rs
  ∧ ∀ i r, rs !! i = Some r →
      ∃ r', rs' !! i = Some r'
        ∧ (∀ f, f ∈ dom (deref h' r')
                ↔ ∃ j q, rs !! j = Some q ∧ f ∈ dom (deref h q))
        ∧ (∀ f, deref h r !! f = None →
                (∃ j q, rs !! j = Some q ∧ f ∈ dom (deref h q)) →
                deref h' r' !! f = Some VNone)
        ∧ (∀ f v, deref h r !! f = Some v → deref h' r' !! f = Some v).
Proof.
  intros Hv Hpad. split; [by eapply pad_data_length|].
  intros i r Hi.
  destruct (pad_data_lookup _ _ _ _ _ _ Hv Hpad Hi) as (r' & Hr' & Hd).
  exists r'. split; [done|]. rewrite Hd.
  split; [|split].
  - intros f. rewrite <- keys_of_contents.
    rewrite dom_padded; [done|].
    intros g Hg. apply keys_of_contents. eauto.
  - intros f Hnone Hf. apply padded_lookup_absent; [done|].
    by apply keys_of_contents.
  - intros f v. apply padded_lookup_present.
Qed.

Lemma pad_data_union_witness :
  length (_pad_data three_rows [0; 1; 2]%nat).2 = 3%nat
  ∧ ∀ i r, [0; 1; 2]%nat !! i = Some r →
      ∃ r', (_pad_data three_rows [0; 1; 2]%nat).2 !! i = Some r'
        ∧ (∀ f, f ∈ dom (deref (_pad_data three_rows [0; 1; 2]%nat).1 r')
                ↔ ∃ j q, [0; 1; 2]%nat !! j = Some q
                         ∧ f ∈ dom (deref three_rows q))
        ∧ (∀ f, deref three_rows r !! f = None →
                (∃ j q, [0; 1; 2]%nat !! j = Some q
                        ∧ f ∈ dom (deref three_rows q)) →
                deref (_pad_data three_rows [0; 1; 2]%nat).1 r' !! f
                = Some VNone)
        ∧ (∀ f v, deref three_rows r !! f = Some v →
                  deref (_pad_data three_rows [0; 1; 2]%nat).1 r' !! f
                  = Some v).
Proof.
  apply (pad_data_union three_rows [0; 1; 2]%nat).
  - solve_valid.
  - vm_compute. reflexivity.
Defined.

(** The scenario of the specification: [{a:1}], [{a:2,b:5}], [{a:3}] are
    padded to [{a:1,b:None}], [{a:2,b:5}], [{a:3,b:None}]. *)
Example pad_data_three_rows :
  contents (_pad_data three_rows [0; 1; 2]%nat).1
           (_pad_data three_rows [0; 1; 2]%nat).2
  = [ <["b"%string := VNone]> row_a1; row_a2b5; <["b"%string := VNone]> row_a3 ].
Proof. vm_compute. reflexivity. Qed.

(** C7. [_pad_data] is idempotent: on a batch whose rows all have the same
    field names every row reads after it as it read before, and that is the
    case of a batch that [_pad_data] has already been run on. *)
Theorem pad_data_idempotent (h : heap) (rs : list loc) (h' : heap) (rs' : list loc) :
  valid h rs →
  _pad_data h rs = (h', rs') →
  ((∀ i j r q, rs !! i = Some r → rs !! j = Some q →
               dom (deref h r) = dom (deref h q)) →
   contents h' rs' = contents h rs)
  ∧ (∀ h'' rs'', _pad_data h' rs' = (h'', rs'') →
                 contents h'' rs'' = contents h' rs').
Proof.
  intros Hv Hpad. split.
  - intros Hu. rewrite (pad_data_contents _ _ _ _ Hv Hpad).
    apply normalized_uniform. intros d1 d2 H1 H2. unfold contents in H1, H2.
    apply list_elem_of_fmap in H1 as (r & -> & Hr).
    apply list_elem_of_fmap in H2 as (q & -> & Hq).
    apply list_elem_of_lookup in Hr as [i Hi].
    apply list_elem_of_lookup in Hq as [j Hj]. eauto.
  - intros h'' rs'' Hpad'.
    pose proof (pad_data_valid _ _ _ _ Hv Hpad) as Hv'.
    rewrite (pad_data_contents _ _ _ _ Hv' Hpad').
    rewrite (pad_data_contents _ _ _ _ Hv Hpad).
    apply normalized_idemp.
Qed.

Lemma pad_data_idempotent_witness :
  contents (_pad_data three_rows [0; 2]%nat).1
           (_pad_data three_rows [0; 2]%nat).2
  = contents three_rows [0; 2]%nat
  ∧ contents
      (_pad_data (_pad_data three_rows [0; 1; 2]%nat).1
                 (_pad_data three_rows [0; 1; 2]%nat).2).1
      (_pad_data (_pad_data three_rows [0; 1; 2]%nat).1
                 (_pad_data three_rows [0; 1; 2]%nat).2).2
    = contents (_pad_data three_rows [0; 1; 2]%nat).1
               (_pad_data three_rows [0; 1; 2]%nat).2.
Proof.
  split.
  - refine (proj1 (pad_data_idempotent three_rows [0; 2]%nat
                      (_pad_data three_rows [0; 2]%nat).1
                      (_pad_data three_rows [0; 2]%nat).2 _ _) _).
    + solve_valid.
    + vm_compute. reflexivity.
    + intros [|[|[|i]]] [|[|[|j]]] r q Hr Hq; try discriminate Hr;
        try discriminate Hq; injection Hr as <-; injection Hq as <-;
        vm_compute; reflexivity.
  - refine (proj2 (pad_data_idempotent three_rows [0; 1; 2]%nat
                      (_pad_data three_rows [0; 1; 2]%nat).1
                      (_pad_data three_rows [0; 1; 2]%nat).2 _ _) _ _ _).
    + solve_valid.
    + vm_compute. reflexivity.
    + vm_compute. reflexivity.
Defined.

(** Rows [{a:1}] and [{a:3}] have the same fields, and come back as they
    were. *)
Example pad_data_uniform_rows :
  contents (_pad_data three_rows [0; 2]%nat).1 (_pad_data three_rows [0; 2]%nat).2
  = [row_a1; row_a3].
Proof. vm_compute. reflexivity. Qed.

(** ** Properties of [flush] *)

Section FlushResults.
Implicit Types (self : BatchInserter) (w : world) (r : loc) (o : outcome).

Lemma delivered_as_refl pad (d : row) : delivered_as pad d d.
Proof. by destruct pad. Qed.

Lemma delivered_as_trans pad (d1 d2 d3 : row) :
  delivered_as pad d1 d2 → delivered_as pad d2 d3 → delivered_as pad d1 d3.
Proof.
  destruct pad; cbn.
  - intros H12 H23. by transitivity d2.
  - congruence.
Qed.


Lemma Forall2_delivered_refl pad (b : list row) :
  Forall2 (delivered_as pad) b b.
Proof. induction b; constructor; auto using delivered_as_refl. Qed.

Lemma Forall2_delivered_trans pad (b1 b2 b3 : list row) :
  Forall2 (delivered_as pad) b1 b2 → Forall2 (delivered_as pad) b2 b3 →
  Forall2 (delivered_as pad) b1 b3.
Proof.
  intros H12. revert b3. induction H12 as [|d1 d2 b1 b2 Hd _ IH]; intros b3 H23.
  - by inversion H23.
  - inversion H23 as [|? d3 ? b3' Hd' Hrest]; subst.
    constructor; [by eapply delivered_as_trans|by apply IH].
Qed.

(** The batch of a flush has one row per buffered row, in buffer order. *)
Lemma batch_of_covers self (h : heap) :
  Forall2 (delivered_as (pad_data self)) (contents h (rows self))
          (batch_of self h).
Proof.
  unfold batch_of. destruct (pad_data self).
  - unfold normalized. generalize (keys_of (contents h (rows self))).
    intros U. induction (contents h (rows self)) as [|d b IH]; cbn.
    + constructor.
    + constructor; [apply padded_subseteq|apply IH].
  - apply Forall2_delivered_refl.
Qed.

(** Flushing again what a failed flush left hands over the same batch. *)
Lemma batch_of_prepared self w :
  valid (objs w) (rows self) →
  batch_of (with_rows (prepared self w).2 self) (prepared self w).1
  = batch_of self (objs w).
Proof.
  intros Hv. destruct (prepared_contents self w Hv) as (Hc & _ & _).
  unfold batch_of in *. cbn [pad_data with_rows rows].
  destruct (pad_data self).
  - rewrite Hc. apply normalized_idemp.
  - exact Hc.
Qed.

Lemma prepared_empty self w : rows self = [] → (prepared self w).2 = [].
Proof. intros Hr. unfold prepared. rewrite Hr. by destruct (pad_data self). Qed.

Lemma log_grows (tr : list event) (e1 e2 e3 : event) : tr ++ [e1; e2; e3] ≠ tr.
Proof.
  intros Heq. apply (f_equal length) in Heq.
  rewrite length_app in Heq. cbn in Heq. lia.
Qed.
End FlushResults.

(** C3. When the bulk insert of a flush raises [e] (after the store wrote any
    number [k] of rows): the flush raises the same [e]; the database is what
    it was; the buffer has as many rows as before and reads as the batch that
    was handed over, row for row the buffered rows (the same objects when
    fields are not filled); and if the store accepts the next bulk insert, a
    second flush returns, empties the buffer and adds that batch to the
    database once. *)
Theorem flush_failure_keeps_rows (self : BatchInserter) (w : world)
    (k : nat) (e : exn) :
  valid (objs w) (rows self) →
  next_reply w = Reject k e →
  ∃ self1 w1,
    flush self w = (self1, w1, Some e)
    ∧ db w1 = db w
    ∧ length (rows self1) = length (rows self)
    ∧ contents (objs w1) (rows self1) = batch_of self (objs w)
    ∧ Forall2 (delivered_as (pad_data self))
              (contents (objs w) (rows self)) (batch_of self (objs w))
    ∧ (pad_data self = false → rows self1 = rows self)
    ∧ (next_reply w1 = Accept →
       ∃ self2 w2,
         flush self1 w1 = (self2, w2, None)
         ∧ rows self2 = []
         ∧ db w2 = db w ++ (pair (ModelType self) <$> batch_of self (objs w))).
Proof.
  intros Hv Hrej.
  destruct (prepared_contents self w Hv) as (Hc & Hv1 & Hlen).
  eexists _, _. split; [by apply (flush_reject self w k e)|].
  cbn [db objs rows with_rows].
  split; [done|]. split; [done|]. split; [done|].
  split; [apply batch_of_covers|].
  split.
  { intros Hpad. unfold prepared. by rewrite Hpad. }
  intros Hacc. eexists _, _. split; [by apply flush_accept|].
  cbn [db objs rows with_rows ModelType]. split; [done|].
  f_equal. f_equal.
  set (self1 := with_rows (prepared self w).2 self).
  set (w1 := World _ _ _ _).
  destruct (prepared_contents self1 w1 Hv1) as (Hc1 & _ & _).
  rewrite Hc1. apply batch_of_prepared. done.
Qed.

Lemma flush_failure_keeps_rows_witness :
  ∃ self1 w1,
    flush (with_rows [0; 1; 2]%nat post10)
          (start three_rows [Reject 2 connection_lost])
    = (self1, w1, Some connection_lost)
    ∧ db w1 = []
    ∧ rows self1 = [0; 1; 2]%nat
    ∧ ∃ self2 w2,
        flush self1 w1 = (self2, w2, None)
        ∧ rows self2 = []
        ∧ db w2 = [("Post"%string, row_a1); ("Post"%string, row_a2b5);
                   ("Post"%string, row_a3)].
Proof.
  destruct (flush_failure_keeps_rows
              (with_rows [0; 1; 2]%nat post10)
              (start three_rows [Reject 2 connection_lost])
              2 connection_lost)
    as (self1 & w1 & Hf & Hdb & _ & _ & _ & Hrows & Hretry).
  - solve_valid.
  - reflexivity.
  - exists self1, w1. split; [exact Hf|]. split; [exact Hdb|].
    split; [apply Hrows; reflexivity|].
    destruct Hretry as (self2 & w2 & Hf2 & Hr2 & Hdb2).
    + vm_compute in Hf. injection Hf as <- <-. reflexivity.
    + exists self2, w2. split; [exact Hf2|]. split; [exact Hr2|].
      rewrite Hdb2. vm_compute. reflexivity.
Defined.

(** A flush of an empty buffer does not leave the store alone: with nothing
    buffered, [flush] still opens a transaction and issues a bulk insert (of
    no rows). *)
Lemma flush_empty_counterexample :
  rows post10 = []
  ∧ ¬ (transactions (log (flush post10 (start [] [])).1.2) = 0%nat
       ∧ flushes (log (flush post10 (start [] [])).1.2) = 0%nat).
Proof. split; [reflexivity|]. intros [Ht _]. vm_compute in Ht. discriminate Ht. Qed.

(** C4 (as the code has it). A flush of an empty buffer opens one transaction
    and issues one bulk insert of an empty list of rows; it leaves the buffer
    empty; it raises exactly when the store rejects that empty bulk insert. *)
Theorem flush_empty_buffer (self : BatchInserter) (w : world)
    (self' : BatchInserter) (w' : world) (o : outcome) :
  rows self = [] →
  flush self w = (self', w', o) →
  rows self' = []
  ∧ (∃ closing,
       log w' = log w ++ [Begin; InsertMany (ModelType self) []; closing])
  ∧ (o = None ↔ next_reply w = Accept).
Proof.
  intros Hr Hf. pose proof (prepared_empty self w Hr) as Hp.
  destruct (next_reply w) as [|k e] eqn:Hn.
  - rewrite flush_accept in Hf by done. injection Hf as <- <- <-.
    rewrite Hp. cbn. repeat split; eauto.
  - rewrite (flush_reject self w k e) in Hf by done. injection Hf as <- <- <-.
    rewrite Hp. cbn. repeat split; eauto; discriminate.
Qed.

Lemma flush_empty_buffer_witness :
  rows (flush post10 (start [] [])).1.1 = []
  ∧ (∃ closing,
       log (flush post10 (start [] [])).1.2
       = [] ++ [Begin; InsertMany "Post" []; closing])
  ∧ ((flush post10 (start [] [])).2 = None ↔ next_reply (start [] []) = Accept).
Proof.
  apply (flush_empty_buffer post10 (start [] [])).
  - reflexivity.
  - vm_compute. reflexivity.
Defined.

(** ** The constructor *)

(** A batch size of 0 or less is not refused: the constructor returns an
    inserter for 0 and for -1. *)
Lemma init_nonpositive_counterexample :
  ¬ (∃ e, (__init__ "Post" 0 false).2 = Some e)
  ∧ ¬ (∃ e, (__init__ "Post" (-1) false).2 = Some e).
Proof. split; intros [e He]; discriminate He. Qed.

(** C5 (as the code has it). The constructor accepts every batch size, 0 and
    negative numbers included: it never raises, and returns an inserter with
    an empty buffer that holds the arguments as they were given. *)
Theorem init_accepts_every_batch_size (M : string) (B : Z) (fill : bool) :
  (__init__ M B fill).2 = None
  ∧ rows (__init__ M B fill).1 = []
  ∧ ModelType (__init__ M B fill).1 = M
  ∧ batch_size (__init__ M B fill).1 = B
  ∧ pad_data (__init__ M B fill).1 = fill.
Proof. done. Qed.

(** ** Properties of [insert] *)

Section InsertResults.
Implicit Types (self : BatchInserter) (w : world) (r : loc) (o : outcome).

Lemma insert_unfold r self w :
  insert r self w
  = if Z.of_nat (length (rows self ++ [r])) >=? batch_size self
    then flush (with_rows (rows self ++ [r]) self) w
    else (with_rows (rows self ++ [r]) self, w, None).
Proof. reflexivity. Qed.

(** Every flush opens one transaction and issues one bulk insert. *)
Lemma flush_trace self w :
  ∃ b closing,
    log (flush self w).1.2
    = log w ++ [Begin; InsertMany (ModelType self) b; closing]
    ∧ (closing = Commit ∨ closing = Rollback).
Proof.
  destruct (next_reply w) as [|k e] eqn:Hn.
  - rewrite flush_accept by done. cbn. eauto.
  - rewrite (flush_reject self w k e) by done. cbn. eauto.
Qed.

Lemma flush_returned self w self' w' :
  flush self w = (self', w', None) → self' = with_rows [] self.
Proof.
  destruct (next_reply w) as [|k e] eqn:Hn.
  - rewrite flush_accept by done. by intros [= <- <-].
  - rewrite (flush_reject self w k e) by done. discriminate.
Qed.

Lemma transactions_app (tr1 tr2 : list event) :
  transactions (tr1 ++ tr2) = (transactions tr1 + transactions tr2)%nat.
Proof. unfold transactions. by rewrite filter_app, length_app. Qed.

Lemma flushes_app (tr1 tr2 : list event) :
  flushes (tr1 ++ tr2) = (flushes tr1 + flushes tr2)%nat.
Proof. unfold flushes. by rewrite filter_app, length_app. Qed.

Lemma flush_counts self w :
  transactions (log (flush self w).1.2) = S (transactions (log w))
  ∧ flushes (log (flush self w).1.2) = S (flushes (log w)).
Proof.
  destruct (flush_trace self w) as (b & closing & -> & Hc).
  rewrite transactions_app, flushes_app.
  destruct Hc as [-> | ->]; split; rewrite Nat.add_comm; reflexivity.
Qed.
End InsertResults.

(** C6. With a batch size of at least 1, in any state: when an [insert] did
    not flush (it asked nothing of the store) it returned and the buffer has
    at most [batch_size - 1] rows; and the buffer has [batch_size] rows or
    more after an [insert] only if that [insert] attempted a flush (which
    raised). *)
Theorem buffer_bound (r : loc) (self : BatchInserter) (w : world)
    (self' : BatchInserter) (w' : world) (o : outcome) :
  1 ≤ batch_size self →
  insert r self w = (self', w', o) →
  (log w' = log w →
   o = None ∧ Z.of_nat (length (rows self')) ≤ batch_size self - 1)
  ∧ (batch_size self ≤ Z.of_nat (length (rows self')) →
     transactions (log w') = S (transactions (log w))
     ∧ flushes (log w') = S (flushes (log w))
     ∧ ∃ e, o = Some e).
Proof.
  intros HB. rewrite insert_unfold.
  destruct (Z.geb_spec (Z.of_nat (length (rows self ++ [r]))) (batch_size self))
    as [Hge|Hlt]; intros Hi.
  - pose proof (flush_counts (with_rows (rows self ++ [r]) self) w) as Hcnt.
    pose proof (flush_trace (with_rows (rows self ++ [r]) self) w)
      as (b & closing & Htr & _).
    rewrite Hi in Hcnt, Htr. cbn [fst snd] in Hcnt, Htr. split.
    + intros Hlog. rewrite Hlog in Htr. symmetry in Htr.
      by apply log_grows in Htr.
    + intros Hlen. destruct Hcnt as [Ht Hf]. split; [done|]. split; [done|].
      destruct o as [e|]; [by eauto|].
      apply flush_returned in Hi. subst self'. cbn in Hlen. lia.
  - injection Hi as <- <- <-. cbn [rows with_rows]. split.
    + intros _. split; [done|]. lia.
    + intros Hlen. lia.
Qed.

Lemma buffer_bound_witness :
  ((insert 0%nat post3 (start three_rows [])).2 = None
   ∧ Z.of_nat (length (rows (insert 0%nat post3 (start three_rows [])).1.1))
     ≤ 3 - 1)
  ∧ (transactions
       (log (insert 1%nat (with_rows [0; 2; 0]%nat post3)
                    (start three_rows [Reject 1 connection_lost])).1.2)
     = 1%nat
     ∧ flushes
         (log (insert 1%nat (with_rows [0; 2; 0]%nat post3)
                      (start three_rows [Reject 1 connection_lost])).1.2)
       = 1%nat
     ∧ ∃ e, (insert 1%nat (with_rows [0; 2; 0]%nat post3)
                    (start three_rows [Reject 1 connection_lost])).2 = Some e).
Proof.
  split.
  - refine (proj1 (buffer_bound 0%nat post3 (start three_rows [])
                     (insert 0%nat post3 (start three_rows [])).1.1
                     (insert 0%nat post3 (start three_rows [])).1.2
                     (insert 0%nat post3 (start three_rows [])).2 _ _) _).
    + cbn. lia.
    + vm_compute. reflexivity.
    + vm_compute. reflexivity.
  - refine (proj2 (buffer_bound 1%nat (with_rows [0; 2; 0]%nat post3)
                     (start three_rows [Reject 1 connection_lost])
                     (insert 1%nat (with_rows [0; 2; 0]%nat post3)
                        (start three_rows [Reject 1 connection_lost])).1.1
                     (insert 1%nat (with_rows [0; 2; 0]%nat post3)
                        (start three_rows [Reject 1 connection_lost])).1.2
                     (insert 1%nat (with_rows [0; 2; 0]%nat post3)
                        (start three_rows [Reject 1 connection_lost])).2 _ _) _).
    + cbn. lia.
    + vm_compute. reflexivity.
    + vm_compute. discriminate.
Defined.

(** ** Sessions *)

Section SessionResults.
Implicit Types (self : BatchInserter) (w : world) (r : loc) (o : outcome)
  (cs : list call).

Lemma session_cons c cs self w :
  session (c :: cs) self w
  = ((session cs (do_call c self w).1.1 (do_call c self w).1.2).1.1,
     (session cs (do_call c self w).1.1 (do_call c self w).1.2).1.2,
     (do_call c self w).2
       :: (session cs (do_call c self w).1.1 (do_call c self w).1.2).2).
Proof.
  cbn [session]. destruct (do_call c self w) as [[self1 w1] o]. cbn [fst snd].
  by destruct (session cs self1 w1) as [[self2 w2] os].
Qed.

(** *** Counting the automatic flushes *)

Lemma inserts_count (ls : list loc) self w self' w' (os : list outcome) :
  1 ≤ batch_size self →
  Z.of_nat (length (rows self)) < batch_size self →
  session (DoInsert <$> ls) self w = (self', w', os) →
  Forall (λ o, o = None) os →
  Z.of_nat (flushes (log w'))
  = Z.of_nat (flushes (log w))
    + (Z.of_nat (length (rows self)) + Z.of_nat (length ls)) / batch_size self
  ∧ Z.of_nat (length (rows self'))
    = (Z.of_nat (length (rows self)) + Z.of_nat (length ls))
        mod batch_size self.
Proof.
  revert self w os. induction ls as [|r ls IH]; intros self w os HB Hlen Hs Hos.
  - cbn in Hs. injection Hs as <- <- <-. cbn [length].
    rewrite Z.add_0_r, Z.div_small, Z.mod_small by lia. lia.
  - rewrite fmap_cons, session_cons in Hs. cbn [do_call] in Hs.
    destruct (insert r self w) as [[self1 w1] o] eqn:Hi. cbn [fst snd] in Hs.
    injection Hs as Hs1 Hs2 Hs3. subst os.
    apply Forall_cons in Hos as [-> Hos].
    assert (Hs : session (DoInsert <$> ls) self1 w1
                 = (self', w',
                    (session (DoInsert <$> ls) self1 w1).2)).
    { rewrite <- Hs1, <- Hs2.
      by destruct (session (DoInsert <$> ls) self1 w1) as [[??]?]. }
    rewrite insert_unfold in Hi. rewrite length_app in Hi. cbn [length] in Hi.
    cbn [length]. rewrite Nat2Z.inj_succ.
    destruct (Z.geb_spec (Z.of_nat (length (rows self) + 1)) (batch_size self))
      as [Hge|Hlt].
    + pose proof (flush_counts (with_rows (rows self ++ [r]) self) w)
        as [_ Hcnt].
      rewrite Hi in Hcnt. cbn [fst snd] in Hcnt.
      apply flush_returned in Hi. subst self1.
      destruct (IH (with_rows [] (with_rows (rows self ++ [r]) self)) w1 _
                   HB ltac:(cbn; lia) Hs Hos) as [IH1 IH2].
      cbn [rows with_rows batch_size length] in IH1, IH2.
      rewrite IH1, IH2, Hcnt.
      replace (Z.of_nat (length (rows self)) + Z.succ (Z.of_nat (length ls)))
        with (1 * batch_size self + Z.of_nat (length ls)) by lia.
      rewrite Z.div_add_l by lia.
      rewrite (Z.add_comm (1 * batch_size self)), Z.mod_add by lia.
      change (Z.of_nat 0) with 0. rewrite Z.add_0_l, Nat2Z.inj_succ. lia.
    + injection Hi as <- <-.
      destruct (IH (with_rows (rows self ++ [r]) self) w _
                   HB ltac:(cbn; rewrite length_app; cbn; lia) Hs Hos)
        as [IH1 IH2].
      cbn [rows with_rows batch_size] in IH1, IH2.
      rewrite length_app in IH1, IH2. cbn [length] in IH1, IH2.
      rewrite IH1, IH2.
      replace (Z.of_nat (length (rows self) + 1) + Z.of_nat (length ls))
        with (Z.of_nat (length (rows self)) + Z.succ (Z.of_nat (length ls)))
        by lia.
      done.
Qed.

(** *** The object store only grows *)

Lemma flush_frame self w : ∃ ext, objs (flush self w).1.2 = objs w ++ ext.
Proof.
  destruct (next_reply w) as [|k e] eqn:Hn.
  - rewrite flush_accept by done. apply prepared_frame.
  - rewrite (flush_reject self w k e) by done. apply prepared_frame.
Qed.

Lemma do_call_frame c self w : ∃ ext, objs (do_call c self w).1.2 = objs w ++ ext.
Proof.
  destruct c as [r|]; cbn [do_call]; [|apply flush_frame].
  rewrite insert_unfold. destruct (_ >=? _); [apply flush_frame|].
  exists []. cbn. by rewrite app_nil_r.
Qed.

Lemma session_frame cs self w : ∃ ext, objs (session cs self w).1.2 = objs w ++ ext.
Proof.
  revert self w. induction cs as [|c cs IH]; intros self w.
  - exists []. cbn. by rewrite app_nil_r.
  - rewrite session_cons. cbn [fst snd].
    destruct (IH (do_call c self w).1.1 (do_call c self w).1.2) as [ext2 ->].
    destruct (do_call_frame c self w) as [ext1 ->].
    exists (ext1 ++ ext2). by rewrite app_assoc.
Qed.
End SessionResults.

(** C2. On a new inserter with batch size [B >= 1], [N] calls of [insert]
    that all return trigger [N / B] flushes (bulk inserts in the trace) and
    leave [N mod B] rows in the buffer. *)
Theorem automatic_flush_count (M : string) (B : Z) (fill : bool)
    (ls : list loc) (w : world)
    (self' : BatchInserter) (w' : world) (os : list outcome) :
  1 ≤ B →
  session (DoInsert <$> ls) (__init__ M B fill).1 w = (self', w', os) →
  Forall (λ o, o = None) os →
  Z.of_nat (flushes (log w'))
  = Z.of_nat (flushes (log w)) + Z.of_nat (length ls) / B
  ∧ Z.of_nat (length (rows self')) = Z.of_nat (length ls) mod B.
Proof.
  intros HB Hs Hos.
  apply (inserts_count ls (__init__ M B fill).1 w self' w' os) in Hs;
    [exact Hs|exact HB|cbn; lia|exact Hos].
Qed.

Lemma automatic_flush_count_witness :
  Z.of_nat (flushes (log (session (DoInsert <$> [0; 1; 2; 0; 1; 2; 0]%nat)
                                  (__init__ "Post" 3 true).1
                                  (start three_rows [])).1.2))
  = Z.of_nat (flushes (log (start three_rows []))) + Z.of_nat 7 / 3
  ∧ Z.of_nat (length (rows (session (DoInsert <$> [0; 1; 2; 0; 1; 2; 0]%nat)
                                    (__init__ "Post" 3 true).1
                                    (start three_rows [])).1.1))
    = Z.of_nat 7 mod 3.
Proof.
  apply (automatic_flush_count "Post" 3 true [0; 1; 2; 0; 1; 2; 0]%nat
           (start three_rows [])
           (session (DoInsert <$> [0; 1; 2; 0; 1; 2; 0]%nat)
                    (__init__ "Post" 3 true).1 (start three_rows [])).1.1
           (session (DoInsert <$> [0; 1; 2; 0; 1; 2; 0]%nat)
                    (__init__ "Post" 3 true).1 (start three_rows [])).1.2
           (session (DoInsert <$> [0; 1; 2; 0; 1; 2; 0]%nat)
                    (__init__ "Post" 3 true).1 (start three_rows [])).2).
  - lia.
  - vm_compute. reflexivity.
  - vm_compute. repeat constructor.
Defined.

(** The scenario of the specification: batch size 3 and three rows give one
    flush of the three padded rows; batch size 10, four rows and an explicit
    flush give one bulk insert of four rows and an empty buffer. *)
Example three_rows_one_flush :
  batches (log (session (DoInsert <$> [0; 1; 2]%nat) post3
                        (start three_rows [])).1.2)
  = [[ <["b"%string := VNone]> row_a1; row_a2b5; <["b"%string := VNone]> row_a3 ]]
  ∧ rows (session (DoInsert <$> [0; 1; 2]%nat) post3 (start three_rows [])).1.1
    = [].
Proof. split; vm_compute; reflexivity. Qed.

Example four_rows_explicit_flush :
  batches (log (session [DoInsert 0%nat; DoInsert 1%nat; DoInsert 2%nat;
                         DoInsert 0%nat; DoFlush] post10
                        (start three_rows [])).1.2)
  = [[row_a1; row_a2b5; row_a3; row_a1]]
  ∧ rows (session [DoInsert 0%nat; DoInsert 1%nat; DoInsert 2%nat;
                   DoInsert 0%nat; DoFlush] post10 (start three_rows [])).1.1
    = [].
Proof. split; vm_compute; reflexivity. Qed.

(** C9. No sequence of [insert] and [flush] calls changes a dictionary that
    exists when it starts: every object of the store is afterwards what it
    was, and so is every row the caller passes to [insert]. *)
Theorem caller_rows_untouched (cs : list call) (self : BatchInserter) (w : world)
    (self' : BatchInserter) (w' : world) (os : list outcome) :
  session cs self w = (self', w', os) →
  (∀ l d, objs w !! l = Some d → objs w' !! l = Some d)
  ∧ (∀ r, r ∈ inserted cs → (r < length (objs w))%nat →
          deref (objs w') r = deref (objs w) r).
Proof.
  intros Hs. destruct (session_frame cs self w) as [ext Hext].
  rewrite Hs in Hext. cbn [fst snd] in Hext. rewrite Hext. split.
  - intros l d Hl. by apply lookup_app_l_Some.
  - intros r _ Hr. by apply deref_app_l.
Qed.

Lemma caller_rows_untouched_witness :
  (∀ l d, three_rows !! l = Some d →
          objs (session (DoInsert <$> [0; 1; 2; 1]%nat) post3
                        (start three_rows [])).1.2 !! l = Some d)
  ∧ (∀ r, r ∈ inserted (DoInsert <$> [0; 1; 2; 1]%nat) →
          (r < length three_rows)%nat →
          deref (objs (session (DoInsert <$> [0; 1; 2; 1]%nat) post3
                               (start three_rows [])).1.2) r
          = deref three_rows r).
Proof.
  apply (caller_rows_untouched (DoInsert <$> [0; 1; 2; 1]%nat) post3
           (start three_rows [])
           (session (DoInsert <$> [0; 1; 2; 1]%nat) post3
                    (start three_rows [])).1.1
           (session (DoInsert <$> [0; 1; 2; 1]%nat) post3
                    (start three_rows [])).1.2
           (session (DoInsert <$> [0; 1; 2; 1]%nat) post3
                    (start three_rows [])).2).
  vm_compute. reflexivity.
Defined.

(** ** Delivery *)

Section Delivery.
Implicit Types (self : BatchInserter) (w : world) (r : loc) (o : outcome)
  (cs : list call).

(** With valid references the batch in the trace is [batch_of]. *)
Lemma flush_trace_valid self w :
  valid (objs w) (rows self) →
  ∃ closing,
    log (flush self w).1.2
    = log w ++ [Begin; InsertMany (ModelType self) (batch_of self (objs w));
                closing]
    ∧ (closing = Commit ∨ closing = Rollback).
Proof.
  intros Hv. destruct (prepared_contents self w Hv) as (Hc & _ & _).
  destruct (next_reply w) as [|k e] eqn:Hn.
  - rewrite flush_accept by done. cbn. rewrite Hc. eauto.
  - rewrite (flush_reject self w k e) by done. cbn. rewrite Hc. eauto.
Qed.

(** What one flush does to the store, the database and the buffer: the
    batch [b] that is committed followed by what stays buffered is, row for
    row, what was buffered. *)
Lemma flush_step self w :
  valid (objs w) (rows self) →
  ∃ ext b,
    objs (flush self w).1.2 = objs w ++ ext
    ∧ valid (objs (flush self w).1.2) (rows (flush self w).1.1)
    ∧ ModelType (flush self w).1.1 = ModelType self
    ∧ pad_data (flush self w).1.1 = pad_data self
    ∧ db (flush self w).1.2 = db w ++ (pair (ModelType self) <$> b)
    ∧ Forall2 (delivered_as (pad_data self))
              (contents (objs w) (rows self))
              (b ++ contents (objs (flush self w).1.2)
                             (rows (flush self w).1.1)).
Proof.
  intros Hv. destruct (prepared_contents self w Hv) as (Hc & Hv1 & _).
  destruct (prepared_frame self w) as [ext Hext].
  pose proof (batch_of_covers self (objs w)) as Hcov.
  destruct (next_reply w) as [|k e] eqn:Hn.
  - rewrite flush_accept by done. cbn [fst snd objs db rows with_rows
      ModelType pad_data].
    exists ext, (batch_of self (objs w)).
    rewrite Hc. unfold contents at 2. cbn [fmap list_fmap].
    rewrite app_nil_r. repeat split; try done. constructor.
  - rewrite (flush_reject self w k e) by done. cbn [fst snd objs db rows
      with_rows ModelType pad_data].
    exists ext, []. rewrite Hc. cbn [fmap list_fmap app].
    rewrite app_nil_r. repeat split; done.
Qed.

Lemma do_call_step c self w :
  valid (objs w) (rows self) →
  valid (objs w) (inserted [c]) →
  ∃ ext b,
    objs (do_call c self w).1.2 = objs w ++ ext
    ∧ valid (objs (do_call c self w).1.2) (rows (do_call c self w).1.1)
    ∧ ModelType (do_call c self w).1.1 = ModelType self
    ∧ pad_data (do_call c self w).1.1 = pad_data self
    ∧ db (do_call c self w).1.2 = db w ++ (pair (ModelType self) <$> b)
    ∧ Forall2 (delivered_as (pad_data self))
              (contents (objs w) (rows self ++ inserted [c]))
              (b ++ contents (objs (do_call c self w).1.2)
                             (rows (do_call c self w).1.1)).
Proof.
  intros Hv Hc. destruct c as [r|]; cbn [do_call inserted] in *.
  - assert (Hv' : valid (objs w) (rows self ++ [r])).
    { apply Forall_app. by split. }
    rewrite insert_unfold. destruct (_ >=? _).
    + apply (flush_step (with_rows (rows self ++ [r]) self) w Hv').
    + exists [], []. cbn [fst snd objs db rows with_rows ModelType pad_data
        fmap list_fmap app].
      rewrite !app_nil_r. repeat split; try done.
      apply Forall2_delivered_refl.
  - rewrite app_nil_r. by apply flush_step.
Qed.

Lemma inserted_cons c cs : inserted (c :: cs) = inserted [c] ++ inserted cs.
Proof. by destruct c. Qed.

Lemma contents_app (h : heap) (rs1 rs2 : list loc) :
  contents h (rs1 ++ rs2) = contents h rs1 ++ contents h rs2.
Proof. unfold contents. apply fmap_app. Qed.

(** A session neither loses, repeats nor reorders rows: what it commits,
    followed by what is still buffered, is the rows buffered at the start
    followed by the rows submitted, row for row. *)
Lemma session_delivery cs self w :
  valid (objs w) (rows self) →
  valid (objs w) (inserted cs) →
  ∃ committed,
    db (session cs self w).1.2
    = db w ++ (pair (ModelType self) <$> committed)
    ∧ Forall2 (delivered_as (pad_data self))
              (contents (objs w) (rows self ++ inserted cs))
              (committed ++ contents (objs (session cs self w).1.2)
                                     (rows (session cs self w).1.1)).
Proof.
  revert self w. induction cs as [|c cs IH]; intros self w Hv Hcs.
  - exists []. cbn [session fst snd inserted fmap list_fmap app].
    rewrite !app_nil_r. split; [done|]. apply Forall2_delivered_refl.
  - rewrite inserted_cons in Hcs. apply Forall_app in Hcs as [Hc Hcs].
    destruct (do_call_step c self w Hv Hc)
      as (ext & b & Hext & Hv1 & HM & Hpad & Hdb & Hb).
    rewrite session_cons. cbn [fst snd].
    set (self1 := (do_call c self w).1.1) in *.
    set (w1 := (do_call c self w).1.2) in *.
    assert (Hcs1 : valid (objs w1) (inserted cs)).
    { rewrite Hext. by apply valid_app. }
    destruct (IH self1 w1 Hv1 Hcs1) as (committed & Hdb' & Hrest).
    exists (b ++ committed). split.
    + rewrite Hdb', Hdb, HM, fmap_app. by rewrite app_assoc.
    + rewrite inserted_cons, app_assoc, contents_app, <- app_assoc.
      rewrite Hpad in Hrest.
      eapply Forall2_delivered_trans;
        [|apply Forall2_app; [apply Forall2_delivered_refl|exact Hrest]].
      rewrite (contents_app (objs w1)), (app_assoc b).
      apply Forall2_app; [exact Hb|].
      rewrite Hext, contents_app_l by done.
      apply Forall2_delivered_refl.
Qed.
End Delivery.

(** C8. Rows are kept and handed over first in, first out.  In any state
    with valid references: an [insert] that does not reach the batch size
    puts the row at the end of the buffer; a flush hands the store one batch
    that is, row for row and in buffer order, the buffered rows ([_pad_data]
    completes rows where they stand); and after any session the rows
    committed to the database followed by the rows still buffered are, row
    for row, the rows buffered at the start followed by the rows submitted,
    in submission order. *)
Theorem rows_delivered_in_order (cs : list call) (r : loc)
    (self : BatchInserter) (w : world) :
  valid (objs w) (rows self) →
  valid (objs w) (inserted cs) →
  (Z.of_nat (length (rows self)) + 1 < batch_size self →
   insert r self w = (with_rows (rows self ++ [r]) self, w, None))
  ∧ (∃ closing,
       log (flush self w).1.2
       = log w ++ [Begin;
                   InsertMany (ModelType self) (batch_of self (objs w));
                   closing]
       ∧ Forall2 (delivered_as (pad_data self))
                 (contents (objs w) (rows self)) (batch_of self (objs w)))
  ∧ (∃ committed,
       db (session cs self w).1.2
       = db w ++ (pair (ModelType self) <$> committed)
       ∧ Forall2 (delivered_as (pad_data self))
                 (contents (objs w) (rows self ++ inserted cs))
                 (committed ++ contents (objs (session cs self w).1.2)
                                        (rows (session cs self w).1.1))).
Proof.
  intros Hv Hcs. split; [|split].
  - intros Hlt. rewrite insert_unfold, length_app. cbn [length].
    destruct (Z.geb_spec (Z.of_nat (length (rows self) + 1)) (batch_size self));
      [lia|done].
  - destruct (flush_trace_valid self w Hv) as (closing & Htr & _).
    exists closing. split; [exact Htr|apply batch_of_covers].
  - by apply session_delivery.
Qed.

Lemma rows_delivered_in_order_witness :
  insert 1%nat (with_rows [0]%nat post3) (start three_rows [Reject 1 connection_lost])
  = (with_rows ([0] ++ [1])%nat post3, start three_rows [Reject 1 connection_lost], None)
  ∧ (∃ closing,
       log (flush (with_rows [0]%nat post3)
                  (start three_rows [Reject 1 connection_lost])).1.2
       = [] ++ [Begin;
                InsertMany "Post" (batch_of (with_rows [0]%nat post3) three_rows);
                closing]
       ∧ Forall2 (delivered_as true)
                 (contents three_rows [0]%nat)
                 (batch_of (with_rows [0]%nat post3) three_rows))
  ∧ (∃ committed,
       db (session [DoInsert 1%nat; DoInsert 2%nat; DoInsert 1%nat; DoFlush]
                   (with_rows [0]%nat post3)
                   (start three_rows [Reject 1 connection_lost])).1.2
       = [] ++ (pair "Post"%string <$> committed)
       ∧ Forall2 (delivered_as true)
           (contents three_rows
              ([0]%nat
               ++ inserted [DoInsert 1%nat; DoInsert 2%nat; DoInsert 1%nat;
                            DoFlush]))
           (committed
            ++ contents
                 (objs (session [DoInsert 1%nat; DoInsert 2%nat;
                                 DoInsert 1%nat; DoFlush]
                                (with_rows [0]%nat post3)
                                (start three_rows
                                   [Reject 1 connection_lost])).1.2)
                 (rows (session [DoInsert 1%nat; DoInsert 2%nat;
                                 DoInsert 1%nat; DoFlush]
                                (with_rows [0]%nat post3)
                                (start three_rows
                                   [Reject 1 connection_lost])).1.1))).
Proof.
  destruct (rows_delivered_in_order
              [DoInsert 1%nat; DoInsert 2%nat; DoInsert 1%nat; DoFlush]
              1%nat (with_rows [0]%nat post3)
              (start three_rows [Reject 1 connection_lost]))
    as (Hins & Hflush & Hsession).
  - solve_valid.
  - solve_valid.
  - split; [|split].
    + apply Hins. cbn. lia.
    + exact Hflush.
    + exact Hsession.
Defined.

(** A store that is down for the first flush: the three padded rows are
    committed by the next flush, before the fourth row, each once. *)
Example retry_keeps_order :
  snd <$> db (session [DoInsert 1%nat; DoInsert 2%nat; DoInsert 1%nat; DoFlush]
                      (with_rows [0]%nat post3)
                      (start three_rows [Reject 1 connection_lost])).1.2
  = [ <["b"%string := VNone]> row_a1; row_a2b5; <["b"%string := VNone]> row_a3;
      row_a2b5 ]
  ∧ (session [DoInsert 1%nat; DoInsert 2%nat; DoInsert 1%nat; DoFlush]
             (with_rows [0]%nat post3)
             (start three_rows [Reject 1 connection_lost])).2
    = [None; Some connection_lost; None; None].
Proof. split; vm_compute; reflexivity. Qed.

(** With a batch size of 0 or less an [insert] does not always flush just the
    row it was given: after a flush that raised, the row of the first
    [insert] is still buffered, and the second [insert] hands the store both
    rows. *)
Lemma nonpositive_batch_counterexample :
  batch_size post0 = 0
  ∧ first_insert.2 = Some connection_lost
  ∧ deref (objs first_insert.1.2) 1%nat = row_a3
  ∧ batches (log second_insert.1.2) = [[row_a1]; [row_a1; row_a3]]
  ∧ ¬ (∃ closing,
         log second_insert.1.2
         = log first_insert.1.2
           ++ [Begin; InsertMany "Post" [row_a3]; closing]).
Proof.
  split; [reflexivity|]. split; [reflexivity|].
  split; [vm_compute; reflexivity|]. split; [vm_compute; reflexivity|].
  intros [closing Hlog].
  apply (f_equal (λ tr, length <$> batches (take 5 tr))) in Hlog.
  vm_compute in Hlog. discriminate Hlog.
Qed.

(** C10 (as the code has it). A batch size [B <= 0] is accepted by the
    constructor, and with it every [insert] attempts a flush, of the whole
    buffer with the new row at its end.  The batch is just the new row when
    the buffer was empty before the call, as it is on a new inserter and
    after every flush that returned: an [insert] that returns leaves the
    buffer empty. *)
Theorem nonpositive_batch_size_flushes (M : string) (B : Z) (fill : bool)
    (r : loc) (self : BatchInserter) (w : world) :
  B ≤ 0 →
  batch_size self = B →
  valid (objs w) (rows self) →
  (r < length (objs w))%nat →
  __init__ M B fill = (Inserter [] M B fill, None)
  ∧ (∃ closing,
       log (insert r self w).1.2
       = log w ++ [Begin;
                   InsertMany (ModelType self)
                     (batch_of (with_rows (rows self ++ [r]) self) (objs w));
                   closing])
  ∧ (rows self = [] →
     batch_of (with_rows (rows self ++ [r]) self) (objs w) = [deref (objs w) r])
  ∧ ((insert r self w).2 = None → rows (insert r self w).1.1 = []).
Proof.
  intros HB Hsize Hv Hr. split; [done|].
  assert (Hflush : insert r self w = flush (with_rows (rows self ++ [r]) self) w).
  { rewrite insert_unfold.
    destruct (Z.geb_spec (Z.of_nat (length (rows self ++ [r]))) (batch_size self));
      [done|lia]. }
  rewrite Hflush. split; [|split].
  - destruct (flush_trace_valid (with_rows (rows self ++ [r]) self) w)
      as (closing & Htr & _); [by apply valid_snoc|].
    exists closing. exact Htr.
  - intros ->. unfold batch_of. cbn [rows with_rows pad_data app contents
      fmap list_fmap].
    destruct (pad_data self); [apply normalized_singleton|done].
  - destruct (flush (with_rows (rows self ++ [r]) self) w) as [[self1 w1] o]
      eqn:Hf. cbn [fst snd]. intros ->.
    apply flush_returned in Hf. by subst self1.
Qed.

Lemma nonpositive_batch_size_flushes_witness :
  __init__ "Post" (-2) true = (Inserter [] "Post" (-2) true, None)
  ∧ (∃ closing,
       log (insert 1%nat (__init__ "Post" (-2) true).1 (start three_rows [])).1.2
       = [] ++ [Begin; InsertMany "Post" [row_a2b5]; closing])
  ∧ rows (insert 1%nat (__init__ "Post" (-2) true).1 (start three_rows [])).1.1
    = [].
Proof.
  destruct (nonpositive_batch_size_flushes "Post" (-2) true 1%nat
              (__init__ "Post" (-2) true).1 (start three_rows []))
    as (Hinit & (closing & Hlog) & Hone & Hempty).
  - lia.
  - reflexivity.
  - solve_valid.
  - cbn. lia.
  - split; [exact Hinit|]. split.
    + exists closing. rewrite Hlog, Hone by reflexivity. reflexivity.
    + apply Hempty. vm_compute. reflexivity.
Defined.

(** ** More on [flush], [insert] and sessions *)

Section MoreResults.
Implicit Types (self : BatchInserter) (w : world) (r : loc) (o : outcome)
  (cs : list call).

Lemma pad_loop_length dd (ixs : list nat) (st : heap * list loc) :
  length (foldl (pad_step dd) st ixs).2 = length st.2.
Proof.
  revert st. induction ixs as [|i ixs IH]; intros [h rs]; cbn [foldl]; [done|].
  rewrite IH. unfold pad_step. destruct (rs !! i); [|done].
  cbn. apply length_insert.
Qed.

(** [_pad_data] never changes the number of rows. *)
Lemma prepared_length self w : length (prepared self w).2 = length (rows self).
Proof.
  unfold prepared. destruct (pad_data self); [|done].
  unfold _pad_data, alloc. by rewrite pad_loop_length.
Qed.

(** The inserter a flush returns, whatever the store answers. *)
Lemma flush_self self w :
  ∃ rs, (flush self w).1.1 = with_rows rs self.
Proof.
  destruct (next_reply w) as [|k e] eqn:Hn.
  - rewrite flush_accept by done. eauto.
  - rewrite (flush_reject self w k e) by done. eauto.
Qed.

Lemma do_call_self c self w :
  ∃ rs, (do_call c self w).1.1 = with_rows rs self.
Proof.
  destruct c as [r|]; cbn [do_call]; [|apply flush_self].
  rewrite insert_unfold. destruct (_ >=? _); [|by eauto].
  destruct (flush_self (with_rows (rows self ++ [r]) self) w) as [rs ->].
  by exists rs.
Qed.

Lemma batches_app (tr1 tr2 : list event) :
  batches (tr1 ++ tr2) = batches tr1 ++ batches tr2.
Proof.
  induction tr1 as [|e tr1 IH]; [done|].
  destruct e; cbn; by rewrite ?IH.
Qed.

Lemma commits_app (tr1 tr2 : list event) :
  commits (tr1 ++ tr2) = (commits tr1 + commits tr2)%nat.
Proof. unfold commits. by rewrite filter_app, length_app. Qed.

Lemma rollbacks_app (tr1 tr2 : list event) :
  rollbacks (tr1 ++ tr2) = (rollbacks tr1 + rollbacks tr2)%nat.
Proof. unfold rollbacks. by rewrite filter_app, length_app. Qed.

Lemma raised_cons o (os : list outcome) :
  raised (o :: os)
  = (match o with Some _ => 1 | None => 0 end + raised os)%nat.
Proof. unfold raised. rewrite filter_cons. by destruct o; cbn. Qed.




(** What one call adds to the trace: nothing, or one whole transaction,
    committed when the call returns and rolled back when it raises. *)
Lemma do_call_trace c self w :
  (log (do_call c self w).1.2 = log w ∧ (do_call c self w).2 = None)
  ∨ (∃ b, log (do_call c self w).1.2
          = log w ++ [Begin; InsertMany (ModelType self) b; Commit]
          ∧ (do_call c self w).2 = None)
  ∨ (∃ b e, log (do_call c self w).1.2
            = log w ++ [Begin; InsertMany (ModelType self) b; Rollback]
            ∧ (do_call c self w).2 = Some e).
Proof.
  assert (Hflush : ∀ self0 w0,
    (∃ b, log (flush self0 w0).1.2
          = log w0 ++ [Begin; InsertMany (ModelType self0) b; Commit]
          ∧ (flush self0 w0).2 = None)
    ∨ (∃ b e, log (flush self0 w0).1.2
              = log w0 ++ [Begin; InsertMany (ModelType self0) b; Rollback]
              ∧ (flush self0 w0).2 = Some e)).
  { intros self0 w0. destruct (next_reply w0) as [|k e] eqn:Hn.
    - left. rewrite flush_accept by done. cbn. eauto.
    - right. rewrite (flush_reject self0 w0 k e) by done. cbn. eauto. }
  destruct c as [r|]; cbn [do_call].
  - rewrite insert_unfold. destruct (_ >=? _); [|by left].
    right. apply (Hflush (with_rows (rows self ++ [r]) self) w).
  - right. apply Hflush.
Qed.
End MoreResults.

(** X1. A flush that the store accepts returns with an empty buffer; it is
    one transaction with one bulk insert, committed, and the database gains
    exactly the batch, in buffer order. *)
Theorem flush_commits_buffer (self : BatchInserter) (w : world) :
  valid (objs w) (rows self) →
  next_reply w = Accept →
  ∃ w',
    flush self w = (with_rows [] self, w', None)
    ∧ db w' = db w ++ (pair (ModelType self) <$> batch_of self (objs w))
    ∧ log w' = log w ++ [Begin;
                         InsertMany (ModelType self) (batch_of self (objs w));
                         Commit]
    ∧ faults w' = tail (faults w).
Proof.
  intros Hv Hn. destruct (prepared_contents self w Hv) as (Hc & _ & _).
  eexists. split; [by apply flush_accept|].
  cbn [db log faults]. by rewrite Hc.
Qed.

Lemma flush_commits_buffer_witness :
  ∃ w',
    flush (with_rows [0; 1; 2]%nat post3) (start three_rows [])
    = (with_rows [] post3, w', None)
    ∧ snd <$> db w'
      = [ <["b"%string := VNone]> row_a1; row_a2b5;
          <["b"%string := VNone]> row_a3 ]
    ∧ transactions (log w') = 1%nat.
Proof.
  destruct (flush_commits_buffer (with_rows [0; 1; 2]%nat post3)
              (start three_rows []))
    as (w' & Hf & Hdb & Hlog & _).
  - solve_valid.
  - reflexivity.
  - exists w'. split; [exact Hf|]. rewrite Hdb, Hlog. split.
    + vm_compute. reflexivity.
    + reflexivity.
Defined.

(** X2. No sequence of [insert] and [flush] calls changes the configuration
    of an inserter: the model, the batch size and the fill flag stay what the
    constructor was given. *)
Theorem session_keeps_configuration (cs : list call) (self : BatchInserter)
    (w : world) :
  ModelType (session cs self w).1.1 = ModelType self
  ∧ batch_size (session cs self w).1.1 = batch_size self
  ∧ pad_data (session cs self w).1.1 = pad_data self.
Proof.
  revert self w. induction cs as [|c cs IH]; intros self w; [done|].
  rewrite session_cons. cbn [fst snd].
  destruct (IH (do_call c self w).1.1 (do_call c self w).1.2) as (-> & -> & ->).
  by destruct (do_call_self c self w) as [rs ->].
Qed.

(** X3. An inserter that does not fill missing fields never creates or
    changes a dictionary: after any session the object store is what it was,
    and the buffer holds the caller's own objects, the last of the rows
    buffered and submitted. *)
Theorem no_fill_no_copy (cs : list call) (self : BatchInserter) (w : world) :
  pad_data self = false →
  objs (session cs self w).1.2 = objs w
  ∧ rows (session cs self w).1.1 `suffix_of` rows self ++ inserted cs.
Proof.
  revert self w. induction cs as [|c cs IH]; intros self w Hpad.
  - cbn. by rewrite app_nil_r.
  - rewrite session_cons. cbn [fst snd].
    assert (Hcall : objs (do_call c self w).1.2 = objs w
                    ∧ pad_data (do_call c self w).1.1 = false
                    ∧ rows (do_call c self w).1.1
                      `suffix_of` rows self ++ inserted [c]).
    { assert (Hflush : ∀ self0, pad_data self0 = false →
                objs (flush self0 w).1.2 = objs w
                ∧ pad_data (flush self0 w).1.1 = false
                ∧ rows (flush self0 w).1.1 `suffix_of` rows self0).
      { intros self0 Hpad0.
        assert (Hp : prepared self0 w = (objs w, rows self0))
          by (unfold prepared; by rewrite Hpad0).
        destruct (next_reply w) as [|k e] eqn:Hn.
        - rewrite flush_accept by done. cbn. rewrite Hp.
          split; [done|]. split; [done|]. apply suffix_nil.
        - rewrite (flush_reject self0 w k e) by done. cbn. rewrite Hp.
          done. }
      destruct c as [r|]; cbn [do_call inserted].
      - rewrite insert_unfold. destruct (_ >=? _).
        + apply (Hflush (with_rows (rows self ++ [r]) self)). done.
        + done.
      - rewrite app_nil_r. by apply Hflush. }
    destruct Hcall as (Hobjs & Hpad1 & Hsuf).
    destruct (IH _ (do_call c self w).1.2 Hpad1) as [-> Hsuf'].
    split; [done|].
    rewrite inserted_cons, app_assoc.
    etrans; [exact Hsuf'|]. by apply suffix_app.
Qed.

Lemma no_fill_no_copy_witness :
  objs (session [DoInsert 0%nat; DoInsert 1%nat; DoFlush; DoInsert 2%nat]
                post10 (start three_rows [Reject 1 connection_lost])).1.2
  = three_rows
  ∧ rows (session [DoInsert 0%nat; DoInsert 1%nat; DoFlush; DoInsert 2%nat]
                  post10 (start three_rows [Reject 1 connection_lost])).1.1
    `suffix_of` [] ++ [0; 1; 2]%nat.
Proof.
  apply (no_fill_no_copy
           [DoInsert 0%nat; DoInsert 1%nat; DoFlush; DoInsert 2%nat] post10
           (start three_rows [Reject 1 connection_lost])).
  reflexivity.
Defined.



(** X5. After [_pad_data] every slot of the list holds a dictionary of its
    own that did not exist before, also when the same dictionary was buffered
    more than once. *)
Theorem pad_data_fresh_slots (h : heap) (rs : list loc) (h' : heap)
    (rs' : list loc) :
  valid h rs →
  _pad_data h rs = (h', rs') →
  NoDup rs'
  ∧ Forall (λ r', (length h ≤ r' < length h')%nat) rs'
  ∧ length h' = (length h + 1 + length rs)%nat.
Proof.
  intros Hv. rewrite pad_data_eq by done. intros [= <- <-].
  assert (Hlen : length (h ++ gset_to_gmap VNone (keys_of (contents h rs))
                           :: normalized (contents h rs))
                 = (length h + 1 + length rs)%nat).
  { rewrite length_app. cbn [length]. unfold normalized, contents.
    rewrite !length_fmap. lia. }
  split; [apply NoDup_seq|]. split; [|exact Hlen].
  apply Forall_forall. intros r' Hr'. apply elem_of_seq in Hr'.
  rewrite Hlen. lia.
Qed.

Lemma pad_data_fresh_slots_witness :
  NoDup (_pad_data three_rows [1; 1]%nat).2
  ∧ Forall (λ r', (length three_rows ≤ r'
                   < length (_pad_data three_rows [1; 1]%nat).1)%nat)
           (_pad_data three_rows [1; 1]%nat).2
  ∧ length (_pad_data three_rows [1; 1]%nat).1
    = (length three_rows + 1 + length [1; 1]%nat)%nat.
Proof.
  apply (pad_data_fresh_slots three_rows [1; 1]%nat).
  - solve_valid.
  - vm_compute. reflexivity.
Defined.

Section MoreSessions.
Implicit Types (self : BatchInserter) (w : world) (r : loc) (o : outcome)
  (cs : list call).

Lemma uniform_normalized (b : list row) : uniform (normalized b).
Proof.
  intros d1 d2 H1 H2.
  by rewrite (dom_normalized _ _ H1), (dom_normalized _ _ H2).
Qed.

Lemma inserts_batches (ls : list loc) self w :
  1 ≤ batch_size self →
  Z.of_nat (length (rows self)) < batch_size self →
  Forall (λ o, o = None) (session (DoInsert <$> ls) self w).2 →
  ∃ tr, log (session (DoInsert <$> ls) self w).1.2 = log w ++ tr
        ∧ Forall (λ b, Z.of_nat (length b) = batch_size self) (batches tr).
Proof.
  revert self w. induction ls as [|r ls IH]; intros self w HB Hlen Hos.
  - exists []. cbn. by rewrite app_nil_r.
  - rewrite fmap_cons, session_cons in *. cbn [fst snd do_call] in *.
    apply Forall_cons in Hos as [Ho Hos].
    rewrite insert_unfold in *. rewrite length_app in *. cbn [length] in *.
    destruct (Z.geb_spec (Z.of_nat (length (rows self) + 1)) (batch_size self))
      as [Hge|Hlt].
    + destruct (next_reply w) as [|k e] eqn:Hn;
        [|by rewrite (flush_reject _ w k e) in Ho].
      rewrite flush_accept in * by done. cbn [fst snd] in *.
      set (w1 := World _ _ _ _) in *.
      destruct (IH (with_rows [] (with_rows (rows self ++ [r]) self)) w1
                   HB ltac:(cbn; lia) Hos) as (tr & Htr & Hb).
      eexists. rewrite Htr. unfold w1. cbn [log]. rewrite <- app_assoc.
      split; [done|]. cbn [batches app]. constructor; [|exact Hb].
      unfold contents. rewrite length_fmap, prepared_length.
      cbn [rows with_rows]. rewrite length_app. cbn [length]. lia.
    + cbn [fst snd] in *.
      destruct (IH (with_rows (rows self ++ [r]) self) w HB
                   ltac:(cbn; rewrite length_app; cbn; lia) Hos)
        as (tr & Htr & Hb).
      by exists tr.
Qed.

Lemma counts_committed (M : string) (b : list row) :
  transactions [Begin; InsertMany M b; Commit] = 1%nat
  ∧ flushes [Begin; InsertMany M b; Commit] = 1%nat
  ∧ commits [Begin; InsertMany M b; Commit] = 1%nat
  ∧ rollbacks [Begin; InsertMany M b; Commit] = 0%nat.
Proof. done. Qed.

Lemma counts_rolled_back (M : string) (b : list row) :
  transactions [Begin; InsertMany M b; Rollback] = 1%nat
  ∧ flushes [Begin; InsertMany M b; Rollback] = 1%nat
  ∧ commits [Begin; InsertMany M b; Rollback] = 0%nat
  ∧ rollbacks [Begin; InsertMany M b; Rollback] = 1%nat.
Proof. done. Qed.

End MoreSessions.

(** X6. With [fill_missing_fields], every batch that any session hands to
    the store is uniform: all its rows have the same field names. *)
Theorem filled_batches_are_uniform (cs : list call) (self : BatchInserter)
    (w : world) :
  pad_data self = true →
  valid (objs w) (rows self) →
  valid (objs w) (inserted cs) →
  ∃ tr, log (session cs self w).1.2 = log w ++ tr
        ∧ Forall uniform (batches tr).
Proof.
  revert self w. induction cs as [|c cs IH]; intros self w Hpad Hv Hcs.
  - exists []. cbn. by rewrite app_nil_r.
  - rewrite inserted_cons in Hcs. apply Forall_app in Hcs as [Hc Hcs].
    destruct (do_call_step c self w Hv Hc)
      as (ext & b & Hext & Hv1 & _ & Hpad1 & _ & _).
    assert (Hcs1 : valid (objs (do_call c self w).1.2) (inserted cs)).
    { rewrite Hext. by apply valid_app. }
    rewrite Hpad in Hpad1.
    destruct (IH _ _ Hpad1 Hv1 Hcs1) as (tr2 & Htr2 & Hu2).
    assert (Hcall : ∃ tr1, log (do_call c self w).1.2 = log w ++ tr1
                           ∧ Forall uniform (batches tr1)).
    { assert (Hflush : ∀ self0, pad_data self0 = true →
                valid (objs w) (rows self0) →
                ∃ tr1, log (flush self0 w).1.2 = log w ++ tr1
                       ∧ Forall uniform (batches tr1)).
      { intros self0 Hpad0 Hv0.
        destruct (flush_trace_valid self0 w Hv0) as (closing & Htr & Hcl).
        eexists. split; [exact Htr|].
        unfold batch_of. rewrite Hpad0.
        destruct Hcl as [-> | ->]; cbn;
          (constructor; [apply uniform_normalized|constructor]). }
      destruct c as [r|]; cbn [do_call inserted] in *.
      - rewrite insert_unfold. destruct (_ >=? _).
        + apply Hflush; [done|]. apply Forall_app. by split.
        + exists []. cbn. by rewrite app_nil_r.
      - by apply Hflush. }
    destruct Hcall as (tr1 & Htr1 & Hu1).
    exists (tr1 ++ tr2). rewrite session_cons. cbn [fst snd].
    rewrite Htr2, Htr1, app_assoc. split; [done|].
    rewrite batches_app. by apply Forall_app.
Qed.

Lemma filled_batches_are_uniform_witness :
  ∃ tr,
    log (session [DoInsert 0%nat; DoInsert 1%nat; DoFlush; DoInsert 2%nat;
                  DoInsert 1%nat; DoInsert 0%nat]
                 post3 (start three_rows [Reject 0 connection_lost])).1.2
    = log (start three_rows [Reject 0 connection_lost]) ++ tr
    ∧ Forall uniform (batches tr).
Proof.
  apply (filled_batches_are_uniform
           [DoInsert 0%nat; DoInsert 1%nat; DoFlush; DoInsert 2%nat;
            DoInsert 1%nat; DoInsert 0%nat]
           post3 (start three_rows [Reject 0 connection_lost])).
  - reflexivity.
  - solve_valid.
  - solve_valid.
Defined.

(** X7. On a new inserter with batch size [B >= 1], when all [insert] calls
    return, every batch the store was handed has exactly [B] rows. *)
Theorem automatic_batches_have_batch_size (M : string) (B : Z) (fill : bool)
    (ls : list loc) (w : world) :
  1 ≤ B →
  Forall (λ o, o = None) (session (DoInsert <$> ls) (__init__ M B fill).1 w).2 →
  ∃ tr, log (session (DoInsert <$> ls) (__init__ M B fill).1 w).1.2 = log w ++ tr
        ∧ Forall (λ b, Z.of_nat (length b) = B) (batches tr).
Proof.
  intros HB Hos.
  apply (inserts_batches ls (__init__ M B fill).1 w HB); [cbn; lia|exact Hos].
Qed.

Lemma automatic_batches_have_batch_size_witness :
  ∃ tr,
    log (session (DoInsert <$> [0; 1; 2; 2; 1]%nat) (__init__ "Post" 2 true).1
                 (start three_rows [])).1.2
    = log (start three_rows []) ++ tr
    ∧ Forall (λ b, Z.of_nat (length b) = 2) (batches tr).
Proof.
  apply (automatic_batches_have_batch_size "Post" 2 true [0; 1; 2; 2; 1]%nat
           (start three_rows [])).
  - lia.
  - vm_compute. repeat constructor.
Defined.





(** X10. The store sees whole transactions only: what any session adds to
    the trace consists of as many bulk inserts as transactions, each
    committed or rolled back, three events per transaction; and as many
    transactions are rolled back as calls raised. *)
Theorem one_bulk_insert_per_transaction (cs : list call) (self : BatchInserter)
    (w : world) :
  ∃ tr, log (session cs self w).1.2 = log w ++ tr
        ∧ transactions tr = flushes tr
        ∧ flushes tr = (commits tr + rollbacks tr)%nat
        ∧ rollbacks tr = raised (session cs self w).2
        ∧ length tr = (3 * transactions tr)%nat.
Proof.
  revert self w. induction cs as [|c cs IH]; intros self w.
  - exists []. cbn. by rewrite app_nil_r.
  - rewrite session_cons. cbn [fst snd].
    destruct (IH (do_call c self w).1.1 (do_call c self w).1.2)
      as (tr2 & -> & Ht & Hf & Hr & Hl).
    rewrite raised_cons.
    destruct (do_call_trace c self w)
      as [[-> ->] | [(b & -> & ->) | (b & e & -> & ->)]].
    + exists tr2. done.
    + exists ([Begin; InsertMany (ModelType self) b; Commit] ++ tr2).
      rewrite <- app_assoc. split; [done|].
      destruct (counts_committed (ModelType self) b) as (H1 & H2 & H3 & H4).
      rewrite transactions_app, flushes_app, commits_app, rollbacks_app,
        length_app, H1, H2, H3, H4.
      cbn [length]. repeat split; lia.
    + exists ([Begin; InsertMany (ModelType self) b; Rollback] ++ tr2).
      rewrite <- app_assoc. split; [done|].
      destruct (counts_rolled_back (ModelType self) b) as (H1 & H2 & H3 & H4).
      rewrite transactions_app, flushes_app, commits_app, rollbacks_app,
        length_app, H1, H2, H3, H4.
      cbn [length]. repeat split; lia.
Qed.

(** ** [init_database] *)

(** X11. For [db_type] ['sqlite'] and for every false value of [db_type]
    ([None], [''], [0], [False]) the proxy is bound to the Sqlite database
    [fetcher.db] and nothing is raised, whatever [config_filename], the
    files and the earlier binding are. *)
Theorem init_database_sqlite (fs : gmap string file) (p : option database)
    (db_type : value) (config_filename : option string) :
  eq_str db_type "sqlite" = true ∨ truthy db_type = false →
  init_database fs p db_type config_filename
  = (Some (SqliteDatabase "fetcher.db"), None).
Proof.
  intros Ht. unfold init_database.
  assert (Hpg : eq_str db_type "postgres" = false).
  { destruct db_type as [|z|s|b]; try done. cbn in *.
    destruct Ht as [Hs|Hs].
    - apply String.eqb_eq in Hs. by subst s.
    - apply negb_false_iff, String.eqb_eq in Hs. by subst s. }
  rewrite Hpg. destruct Ht as [-> | ->]; [done|].
  by rewrite orb_true_r.
Qed.

Lemma init_database_sqlite_witness :
  init_database ∅ None VNone (Some "postgres-credentials.json")
  = (Some (SqliteDatabase "fetcher.db"), None)
  ∧ init_database ∅ None (VStr "sqlite") None
    = (Some (SqliteDatabase "fetcher.db"), None).
Proof.
  split.
  - apply init_database_sqlite. right. reflexivity.
  - apply init_database_sqlite. left. reflexivity.
Defined.

(** X12. For [db_type] ['postgres'], when the configuration file ([name]; the
    file [postgres-credentials.json] when [config_filename] is [None] or
    empty) holds a JSON object with the key [dbusername], nothing is raised
    and the proxy is bound to the Postgres database [fetcher] whose keyword
    arguments are: [user], the value of [dbusername]; [password], the value of
    [dbpassword], exactly when the file has it; [host] likewise; and nothing
    else of the file. *)
Theorem init_database_postgres (fs : gmap string file) (p : option database)
    (config_filename : option string) (name : string)
    (pg_config : gmap string json) (u : json) :
  (config_filename = Some name ∧ name ≠ "")
  ∨ ((config_filename = None ∨ config_filename = Some "")
     ∧ name = "postgres-credentials.json") →
  fs !! name = Some (Json (JObject pg_config)) →
  pg_config !! "dbusername" = Some u →
  ∃ config,
    init_database fs p (VStr "postgres") config_filename
    = (Some (PostgresqlDatabase "fetcher" config), None)
    ∧ config !! "user" = Some u
    ∧ config !! "password" = pg_config !! "dbpassword"
    ∧ config !! "host" = pg_config !! "host"
    ∧ ∀ k, k ≠ "user" → k ≠ "password" → k ≠ "host" → config !! k = None.
Proof.
  intros Hname Hfile Hu. unfold init_database.
  change (eq_str (VStr "postgres") "postgres") with true. cbn match.
  assert (Hn : match config_filename with
               | Some name0 =>
                   if String.eqb name0 "" then POSTGRES_CONFIG_NAME else name0
               | None => POSTGRES_CONFIG_NAME
               end = name).
  { destruct Hname as [[-> Hne] | [[-> | ->] ->]]; try done.
    apply String.eqb_neq in Hne. by rewrite Hne. }
  rewrite Hn, Hfile, Hu.
  eexists. split; [reflexivity|].
  destruct (pg_config !! "dbpassword") as [pw|],
           (pg_config !! "host") as [ho|];
    repeat split; try (by simplify_map_eq);
    intros k H1 H2 H3; by simplify_map_eq.
Qed.

Lemma init_database_postgres_witness :
  ∃ config,
    init_database
      {[ "postgres-credentials.json"%string :=
           Json (JObject (<[ "dbusername"%string := JScalar (VStr "fetcher") ]>
                          (<[ "port"%string := JScalar (VInt 5432) ]>
                           {[ "host"%string := JScalar (VStr "db.local") ]}))) ]}
      None (VStr "postgres") None
    = (Some (PostgresqlDatabase "fetcher" config), None)
    ∧ config !! "user"%string = Some (JScalar (VStr "fetcher"))
    ∧ config !! "password"%string = None
    ∧ config !! "host"%string = Some (JScalar (VStr "db.local"))
    ∧ config !! "port"%string = None.
Proof.
  destruct (init_database_postgres
              {[ "postgres-credentials.json"%string :=
                   Json (JObject
                     (<[ "dbusername"%string := JScalar (VStr "fetcher") ]>
                      (<[ "port"%string := JScalar (VInt 5432) ]>
                       {[ "host"%string := JScalar (VStr "db.local") ]}))) ]}
              None None "postgres-credentials.json"
              (<[ "dbusername"%string := JScalar (VStr "fetcher") ]>
               (<[ "port"%string := JScalar (VInt 5432) ]>
                {[ "host"%string := JScalar (VStr "db.local") ]}))
              (JScalar (VStr "fetcher")))
    as (config & Hinit & Huser & Hpw & Hhost & Hother).
  - right. split; [by left|reflexivity].
  - vm_compute. reflexivity.
  - vm_compute. reflexivity.
  - exists config. split; [exact Hinit|]. split; [exact Huser|].
    split; [rewrite Hpw; vm_compute; reflexivity|].
    split; [rewrite Hhost; vm_compute; reflexivity|].
    apply Hother; discriminate.
Defined.



(** ** The schema and [create_tables] *)

Section Schema.

Lemma rel_models_elem (fs : list field) (t : string) :
  t ∈ rel_models fs ↔ ∃ f, f ∈ fs ∧ type_of f = ForeignKeyField t.
Proof.
  induction fs as [|[n ty kw] fs IH].
  - cbn. split; [by intros ?%elem_of_nil|by intros (f & ?%elem_of_nil & _)].
  - destruct ty; cbn [rel_models];
      try (rewrite IH; split;
           [ intros (f & Hf & Ht); exists f; split; [by right|done]
           | intros (f & Hf & Ht); apply elem_of_cons in Hf as [->|Hf];
             [done|by exists f] ]).
    rewrite elem_of_cons, IH. split.
    + intros [->|(f & Hf & Ht)].
      * eexists. split; [by left|done].
      * exists f. split; [by right|done].
    + intros (f & Hf & Ht). apply elem_of_cons in Hf as [->|Hf].
      * left. cbn in Ht. congruence.
      * right. by exists f.
Qed.

(** What the check [declared_in_order] establishes. *)
Lemma declared_in_order_sound (earlier : list string) (ms : list model_class) :
  declared_in_order earlier ms = true →
  ∀ i m t, ms !! i = Some m → t ∈ rel_models (fields m) →
    t = "self" ∨ t ∈ earlier
    ∨ ∃ j m', (j < i)%nat ∧ ms !! j = Some m' ∧ model_name m' = t.
Proof.
  revert earlier. induction ms as [|m0 ms IH]; intros earlier Hok i m t Hi Ht.
  - by rewrite lookup_nil in Hi.
  - cbn in Hok. apply andb_true_iff in Hok as [Hm0 Hrest].
    destruct i as [|i].
    + injection Hi as <-.
      rewrite forallb_forall in Hm0.
      apply list_elem_of_In, Hm0, bool_decide_eq_true in Ht as [->|Ht]; auto.
    + cbn in Hi. destruct (IH _ Hrest i m t Hi Ht) as [->|[Hin|Hlater]].
      * by left.
      * apply elem_of_app in Hin as [Hin|Hin]; [auto|].
        apply list_elem_of_singleton in Hin as ->.
        right. right. exists 0%nat, m0. split; [lia|done].
      * destruct Hlater as (j & m' & Hj & Hm' & <-).
        right. right. exists (S j), m'. split; [lia|done].
Qed.
End Schema.

(** X14. [create_tables] names every model class of the module, each once:
    its list is a rearrangement of the declared models. *)
Theorem create_tables_covers_models :
  create_tables_models ≡ₚ model_name <$> declared_models
  ∧ NoDup create_tables_models.
Proof.
  assert (Hnd : NoDup create_tables_models).
  { apply (bool_decide_unpack _). vm_compute. exact I. }
  split; [|exact Hnd].
  apply NoDup_Permutation; [exact Hnd| |].
  - apply (bool_decide_unpack _). vm_compute. exact I.
  - assert (H1 : Forall (λ x, x ∈ model_name <$> declared_models)
                        create_tables_models).
    { apply (bool_decide_unpack _). vm_compute. exact I. }
    assert (H2 : Forall (λ x, x ∈ create_tables_models)
                        (model_name <$> declared_models)).
    { apply (bool_decide_unpack _). vm_compute. exact I. }
    rewrite Forall_forall in H1, H2. intros x. split; auto.
Qed.

(** X15. Every foreign key of every model refers to the model itself
    (['self']) or to a model class declared earlier in the module, and
    [create_tables] creates the table of that model. *)
Theorem foreign_keys_refer_to_earlier_models (i : nat) (m : model_class)
    (f : field) (t : string) :
  declared_models !! i = Some m →
  f ∈ fields m →
  type_of f = ForeignKeyField t →
  t = "self"
  ∨ (t ∈ create_tables_models
     ∧ ∃ j m', (j < i)%nat ∧ declared_models !! j = Some m'
               ∧ model_name m' = t).
Proof.
  intros Hi Hf Ht.
  assert (Hrel : t ∈ rel_models (fields m)) by (apply rel_models_elem; eauto).
  assert (Hok : declared_in_order [] declared_models = true)
    by (vm_compute; reflexivity).
  destruct (declared_in_order_sound [] declared_models Hok i m t Hi Hrel)
    as [->|[Hin|(j & m' & Hj & Hm' & Hname)]].
  - by left.
  - by apply elem_of_nil in Hin.
  - right. split; [|by eauto].
    assert (Hall : Forall (λ x, x ∈ create_tables_models)
                          (model_name <$> declared_models)).
    { apply (bool_decide_unpack _). vm_compute. exact I. }
    rewrite Forall_forall in Hall. apply Hall. rewrite <- Hname.
    apply list_elem_of_fmap. exists m'. split; [done|].
    apply list_elem_of_lookup. eauto.
Qed.

Lemma foreign_keys_refer_to_earlier_models_witness :
  "Seed"%string = "self"%string
  ∨ ("Seed"%string ∈ create_tables_models
     ∧ ∃ j m', (j < 1)%nat ∧ declared_models !! j = Some m'
               ∧ model_name m' = "Seed"%string).
Proof.
  apply (foreign_keys_refer_to_earlier_models 1%nat
           (ModelClass "Query" [
              Field "fetch_index" IntegerField [KwIndex true];
              Field "date" DateTimeField [KwIndex true; KwDefaultNow];
              Field "seed" (ForeignKeyField "Seed") [];
              Field "query" CharField [];
              Field "depth" IntegerField [];
              Field "rank" IntegerField []
            ])
           (Field "seed" (ForeignKeyField "Seed") []) "Seed").
  - reflexivity.
  - cbn. do 2 right. left.
  - reflexivity.
Defined.

(** ** The page of [hello.py] *)

(** X16. [hello_world] answers a request in one of two ways.  When no post
    has a title that matches, it raises [IndexError] and prints and renders
    nothing.  Otherwise it prints the title of the first matching post and
    renders [index.html] with at most ten posts, all matching, in the order
    of the table and starting with that post. *)
Theorem hello_world_page (contains : string → bool) (posts : list row) :
  (Forall (λ p, from_option contains false (title_of p) ≠ true) posts
   ∧ hello_world contains posts = ([], inr IndexError))
  ∨ (∃ first s rest,
       hello_world contains posts
       = ([Some s], inl (Rendered "index.html" (first :: rest)))
       ∧ title_of first = Some s
       ∧ contains s = true
       ∧ head (filter (λ p, from_option contains false (title_of p) = true)
                      posts) = Some first
       ∧ (length (first :: rest) ≤ 10)%nat
       ∧ Forall (λ p, from_option contains false (title_of p) = true)
                (first :: rest)
       ∧ first :: rest `sublist_of` posts).
Proof.
  unfold hello_world, select_where_title_limit.
  set (P := λ p : row, from_option contains false (title_of p) = true).
  destruct (filter P posts) as [|first found] eqn:Hfound.
  - left. split; [|done].
    apply Forall_forall. intros p Hp Hm.
    assert (Hin : p ∈ filter P posts) by (by apply list_elem_of_filter).
    rewrite Hfound in Hin. by apply elem_of_nil in Hin.
  - right.
    assert (Hall : Forall P (first :: found)).
    { rewrite <- Hfound. apply Forall_forall. intros p Hp.
      by apply list_elem_of_filter in Hp as [Hp _]. }
    assert (HP : P first) by (by inversion Hall).
    unfold P in HP. destruct (title_of first) as [s|] eqn:Hs; [|done].
    exists first, s, (take 9 found). cbn [take lookup list_lookup].
    rewrite Hs. repeat split; try done.
    + cbn [length]. pose proof (firstn_le_length 9 found). lia.
    + change (first :: take 9 found) with (take 10 (first :: found)).
      by apply Forall_take.
    + change (first :: take 9 found) with (take 10 (first :: found)).
      rewrite <- Hfound. etrans; [apply sublist_take|apply sublist_filter].
Qed.

(** Two posts about Django among three, and a table without any. *)
Example hello_world_first_title :
  hello_world contains_django
    [ {[ "title"%string := VStr "Flask routing" ]};
      {[ "title"%string := VStr "Learn Django forms" ]};
      {[ "title"%string := VNone ]};
      {[ "title"%string := VStr "Django ORM" ]} ]
  = ([Some "Learn Django forms"%string],
     inl (Rendered "index.html"
            [ {[ "title"%string := VStr "Learn Django forms" ]};
              {[ "title"%string := VStr "Django ORM" ]} ]))
  ∧ hello_world contains_django [ {[ "title"%string := VStr "Flask routing" ]} ]
    = ([], inr IndexError).
Proof. split; vm_compute; reflexivity. Qed.
